(** * firewalker/il: the expression binder and the bound-tree visitor

    A shallow embedding of the property binder for HIL expressions
    ([propertyBinder.bindExpr] and its cases) and of the generic pre/post
    visitor over bound trees ([il/boundTree_visitor.go]), followed by the
    properties of the two that the specification states.

    Go interface values are nullable: a [BoundNode] or [BoundExpr] held in a
    variable, a field or a slice is either [nil] or a pointer to one of the
    concrete node structs.  They are embedded as [option]s, [None] being the
    nil interface.  A Go function returning [(T, error)] is embedded as a
    function into [res T]; a third constructor records a run-time panic. *)

From Stdlib Require Import ZArith Ascii String List Bool.
From stdpp Require Import base option list gmap strings.
Import ListNotations.
Local Open Scope string_scope.
Local Open Scope Z_scope.

Set Implicit Arguments.
#[local] Set Warnings "-register-all".

(** ** Errors, panics and results *)

(** An argument of a format string, kept unformatted. *)
Inductive fmtArg : Type :=
| ArgString (s : string)
| ArgValue (descr : string).

(** [errors.Errorf(format, args...)] and [errors.New(msg)]; [ExternalError] is
    an error value produced by code outside the package. *)
Inductive error : Type :=
| Errorf (format : string) (args : list fmtArg)
| ErrorsNew (msg : string)
| ExternalError (msg : string).

Inductive panic : Type :=
| IndexOutOfRange (index : Z) (len : nat)
| ContractFailure (format : string)
| TypeAssertionFailed (target : string).

Inductive res (A : Type) : Type :=
| Ok (a : A)
| Err (e : error)
| Panic (p : panic).
Arguments Ok {A} a.
Arguments Err {A} e.
Arguments Panic {A} p.

(** ** The type system (il.Type) *)

(** Modelled from the spec: the declaration of [Type] and of its methods
    [IsList], [ElementType], [ListOf] and [OutputOf], which the binder uses
    and does not define.  The specification gives the primitive variants
    Unknown, Bool, Number, String and Map and the two wrappers [ListOf] and
    [OutputOf], compared structurally.  The wrappers are idempotent, and a
    type that is wrapped in [OutputOf] and then in [ListOf] is the type
    [OutputOf(ListOf(T))]: a type is a primitive variant together with the
    wrappers it is under. *)
Inductive Primitive : Type :=
| PrimUnknown
| PrimBool
| PrimNumber
| PrimString
| PrimMap.

Record Type_ : Type := MkType {
  primitive : Primitive;
  isList : bool;
  isOutput : bool
}.

Definition TypeUnknown : Type_ := MkType PrimUnknown false false.
Definition TypeBool : Type_ := MkType PrimBool false false.
Definition TypeNumber : Type_ := MkType PrimNumber false false.
Definition TypeString : Type_ := MkType PrimString false false.
Definition TypeMap : Type_ := MkType PrimMap false false.

(** Modelled from the spec: [ListOf() -> Type]. *)
Definition ListOf (t : Type_) : Type_ :=
  MkType (primitive t) true (isOutput t).

(** Modelled from the spec: [OutputOf() -> Type]. *)
Definition OutputOf (t : Type_) : Type_ :=
  MkType (primitive t) (isList t) true.

#[global] Instance Primitive_eq_dec : EqDecision Primitive.
Proof. solve_decision. Defined.

#[global] Instance Type_eq_dec : EqDecision Type_.
Proof. solve_decision. Defined.

(** Modelled from the spec: [IsList() -> bool]. *)
Definition IsList (t : Type_) : bool := isList t.

(** Modelled from the spec: [ElementType() -> Type], the type without its
    list wrapper on a list type and defensively [Unknown] on any other. *)
Definition ElementType (t : Type_) : Type_ :=
  if isList t then MkType (primitive t) false (isOutput t) else TypeUnknown.

(** ** Schemas *)

(** Modelled from the spec: the declaration of [Schemas], which the binder
    uses and does not define.  A schema carries a declared type and maps the name of a
    property to a nested schema. *)
Inductive Schemas : Type :=
| MkSchemas (declared : Type_) (properties : list (string * Schemas)).

(** The zero value [Schemas{}]. *)
Definition Schemas_zero : Schemas := MkSchemas TypeUnknown [].

Definition Schemas_Type (s : Schemas) : Type_ :=
  match s with MkSchemas t _ => t end.

Fixpoint assoc_lookup {A : Type} (name : string) (l : list (string * A)) : option A :=
  match l with
  | [] => None
  | (k, v) :: l' => if String.eqb k name then Some v else assoc_lookup name l'
  end.

(** [PropertySchemas(name)]: the nested schema, and a schema of type Unknown
    when the name is not declared. *)
Definition PropertySchemas (s : Schemas) (name : string) : Schemas :=
  match s with
  | MkSchemas _ props =>
      match assoc_lookup name props with
      | Some s' => s'
      | None => Schemas_zero
      end
  end.

(** ** The HIL syntax tree (package hil/ast) *)

Module ast.

(** [ast.Type], the kind of a literal. *)
Inductive Type_ : Type :=
| TypeInvalid | TypeAny | TypeBool | TypeFloat | TypeInt
| TypeList | TypeMap | TypeString | TypeUnknown.

(** The [interface{}] held by a literal; a float is kept as its bits. *)
Inductive Value : Type :=
| VBool (b : bool)
| VInt (i : Z)
| VFloat (bits : Z)
| VString (s : string)
| VOther.

(** The implementations of [ast.Node].  [Other] stands for a node that is
    none of the seven the binder dispatches on. *)
Inductive Node : Type :=
| Arithmetic (Op : Z) (Exprs : list Node)
| Call (Func : string) (Args : list Node)
| Conditional (CondExpr TrueExpr FalseExpr : Node)
| Index (Target Key : Node)
| LiteralNode (Value_ : Value) (Typex : Type_)
| Output (Exprs : list Node)
| VariableAccess (Name : string)
| Other.

End ast.

(** ** Interpolated variables (package terraform/config) *)

Module config.

Inductive CountValueType : Type := CountValueInvalid | CountValueIndex.

Record CountVariable := { cv_Type : CountValueType; cv_key : string }.
Record LocalVariable := { lv_Name : string }.
Record ModuleVariable := { mv_Name : string; mv_Field : string }.
Record ResourceVariable := {
  rv_ResourceId : string;   (* the value of v.ResourceId() *)
  rv_Field : string;
  rv_Multi : bool;
  rv_Index : Z
}.
Record UserVariable := { uv_Name : string; uv_Elem : string }.

(** The dynamic type of the value [NewInterpolatedVariable] returns.
    [Unexpected] is any implementation the binder does not list. *)
Inductive InterpolatedVariable : Type :=
| Count (v : CountVariable)
| Local_ (v : LocalVariable)
| Module_ (v : ModuleVariable)
| Path
| Resource (v : ResourceVariable)
| Self
| Simple
| Terraform
| User (v : UserVariable)
| Unexpected.

End config.

(** ** Bound trees *)

(** A reference to a graph node.  The Go field holds the pointer found in one
    of the builder's tables; it is kept as the table and the key. *)
Inductive NodeRef : Type :=
| LocalRef (name : string)
| ModuleRef (name : string)
| ResourceRef (id : string)
| VariableRef (name : string).

(** The seven node structs that implement [BoundExpr], with the fields the
    binder fills in.  A field or slice element of interface type [BoundExpr]
    is an [option]. *)
Inductive BoundExpr : Type :=
| BoundArithmetic (HILNode : ast.Node) (Exprs : list (option BoundExpr))
| BoundCall (HILNode : ast.Node) (ExprType : Type_) (Args : list (option BoundExpr))
| BoundConditional (HILNode : ast.Node) (ExprType : Type_)
    (CondExpr TrueExpr FalseExpr : option BoundExpr)
| BoundIndex (HILNode : ast.Node) (ExprType : Type_)
    (TargetExpr KeyExpr : option BoundExpr)
| BoundLiteral (ExprType : Type_) (Value : ast.Value)
| BoundOutput (HILNode : ast.Node) (Exprs : list (option BoundExpr))
| BoundVariableAccess (HILNode : ast.Node) (Elements : list string)
    (Schemas_ : Schemas) (ExprType : Type_)
    (TFVar : config.InterpolatedVariable) (ILNode : option NodeRef).

(** The implementations of [BoundNode]: every [BoundExpr], and the two
    containers.  The Go map of a [BoundMapProperty] is kept as the list of its
    entries in the order a [range] loop meets them; keys are distinct. *)
Inductive BoundNode : Type :=
| ExprNode (e : BoundExpr)
| BoundListProperty (Elements : list (option BoundNode))
| BoundMapProperty (Elements : list (string * option BoundNode)).

(** The conversion of a [BoundExpr] interface value to [BoundNode]. *)
Definition asNode (e : option BoundExpr) : option BoundNode :=
  match e with
  | Some e' => Some (ExprNode e')
  | None => None
  end.

(** ** Graph nodes and the builder *)

(** Modelled from the spec: the structs of the graph nodes, which the binder
    reads and does not define.  A resource node carries a provider reference,
    its configuration type and name, and the schema it exposes through
    [Schemas()]. *)
Record ResourceNode := {
  Provider : option string;
  Config_Type : string;
  Config_Name : string;
  ResourceNode_Schemas : Schemas
}.

(** Modelled from the spec: a variable node carries an optional default
    value, which reports a [Type()]. *)
Record VariableNode := { DefaultValue : option BoundExpr }.

Record LocalNode := { LocalNode_Name : string }.
Record ModuleNode := { ModuleNode_Name : string }.

(** The four tables of the builder that the binder reads. *)
Record builder := {
  locals : gmap string LocalNode;
  modules : gmap string ModuleNode;
  resources : gmap string ResourceNode;
  variables : gmap string VariableNode
}.

(** ** The binder monad: the builder is threaded, a result is returned *)

Definition M (A : Type) : Type := builder -> res A * builder.

Definition ret {A : Type} (a : A) : M A := fun b => (Ok a, b).
Definition fail {A : Type} (e : error) : M A := fun b => (Err e, b).
Definition crash {A : Type} (p : panic) : M A := fun b => (Panic p, b).

Definition bind {A B : Type} (m : M A) (k : A -> M B) : M B :=
  fun b =>
    match m b with
    | (Ok a, b') => k a b'
    | (Err e, b') => (Err e, b')
    | (Panic p, b') => (Panic p, b')
    end.

Declare Scope binder_scope.
Delimit Scope binder_scope with binder.
Notation "x <- m ;; k" := (bind m (fun x => k))
  (at level 100, m at next level, right associativity) : binder_scope.

(** The message of the arity error of [map]; it holds two double quotes. *)
Definition dquote : string := String (ascii_of_nat 34) EmptyString.
Definition map_arity_message : string :=
  "the numbner of arguments to " ++ dquote ++ "map" ++ dquote ++ " must be even".

(** [strings.Split(s, sep)] for a separator of one byte. *)
Fixpoint strings_Split (s : string) (sep : ascii) : list string :=
  match s with
  | EmptyString => [EmptyString]
  | String c s' =>
      if Ascii.eqb c sep then EmptyString :: strings_Split s' sep
      else match strings_Split s' sep with
           | [] => [String c EmptyString]
           | h :: t => String c h :: t
           end
  end.

(** What the binder calls and the package leaves to its collaborators, or
    defines in files this development does not embed. *)
Record Externals := {
  (** [config.NewInterpolatedVariable], the parser of a variable name. *)
  NewInterpolatedVariable : string -> res config.InterpolatedVariable;
  (** [builder.ensureProvider(r)]: it may fail, and it may update the resource
      node and the builder. *)
  ensureProvider :
    ResourceNode -> builder -> option error * ResourceNode * builder;
  (** [Type()] of the two expression nodes that carry no [ExprType] field. *)
  BoundArithmetic_Type : ast.Node -> list (option BoundExpr) -> Type_;
  BoundOutput_Type : ast.Node -> list (option BoundExpr) -> Type_
}.

Section Binder.

Variable ext : Externals.

(** The two fields of [propertyBinder]: the builder is the state of [M],
    [hasCountIndex] is read only. *)
Variable hasCountIndex : bool.

(** Modelled from the spec: the method [Type()] of a [BoundExpr], which the
    binder calls and does not define.  A node reports the [ExprType] it
    carries; an Arithmetic and an Output carry none, and what they report is
    left to [ext]. *)
Definition BoundExpr_Type (e : BoundExpr) : Type_ :=
  match e with
  | BoundArithmetic n exprs => BoundArithmetic_Type ext n exprs
  | BoundCall _ t _ => t
  | BoundConditional _ t _ _ _ => t
  | BoundIndex _ t _ _ => t
  | BoundLiteral t _ => t
  | BoundOutput n exprs => BoundOutput_Type ext n exprs
  | BoundVariableAccess _ _ _ t _ _ => t
  end.

Local Open Scope binder_scope.

Section Cases.

(** The recursive call [b.bindExpr]. *)
Variable bindExpr : ast.Node -> M BoundExpr.

(** bindExprs binds the list of HIL expressions and returns the resulting
    list. *)
Fixpoint bindExprs (ns : list ast.Node) : M (list BoundExpr) :=
  match ns with
  | [] => ret []
  | n :: ns' =>
      bn <- bindExpr n ;;
      boundExprs <- bindExprs ns' ;;
      ret (bn :: boundExprs)
  end.

(** bindArithmetic binds an HIL arithmetic expression. *)
Definition bindArithmetic (n : ast.Node) (n_Exprs : list ast.Node) : M BoundExpr :=
  exprs <- bindExprs n_Exprs ;;
  ret (BoundArithmetic n (map Some exprs)).

(** bindCall binds an HIL call expression. *)
Definition bindCall (n : ast.Node) (n_Func : string) (n_Args : list ast.Node)
  : M BoundExpr :=
  args <- bindExprs n_Args ;;
  let done exprType := ret (BoundCall n exprType (map Some args)) in
  if String.eqb n_Func "base64decode" then done TypeString
  else if String.eqb n_Func "base64encode" then done TypeString
  else if String.eqb n_Func "chomp" then done TypeString
  else if String.eqb n_Func "element" then
    match args with
    | [] => crash (IndexOutOfRange 0 0)
    | arg0 :: _ =>
        if IsList (BoundExpr_Type arg0)
        then done (ElementType (BoundExpr_Type arg0))
        else done TypeUnknown
    end
  else if String.eqb n_Func "file" then done TypeString
  else if String.eqb n_Func "format" then done TypeString
  else if String.eqb n_Func "list" then done (ListOf TypeUnknown)
  else if String.eqb n_Func "lookup" then done TypeUnknown
  else if String.eqb n_Func "map" then
    if negb (Z.of_nat (length args) mod 2 =? 0)
    then fail (Errorf map_arity_message [])
    else done TypeMap
  else if String.eqb n_Func "split" then done (ListOf TypeString)
  else fail (Errorf "NYI: call to %s" [ArgString n_Func]).

(** bindConditional binds an HIL conditional expression. *)
Definition bindConditional (n n_CondExpr n_TrueExpr n_FalseExpr : ast.Node)
  : M BoundExpr :=
  condExpr <- bindExpr n_CondExpr ;;
  trueExpr <- bindExpr n_TrueExpr ;;
  falseExpr <- bindExpr n_FalseExpr ;;
  let exprType := BoundExpr_Type trueExpr in
  let exprType :=
    if negb (bool_decide (exprType = BoundExpr_Type falseExpr))
    then TypeUnknown else exprType in
  ret (BoundConditional n exprType
         (Some condExpr) (Some trueExpr) (Some falseExpr)).

(** bindIndex binds an HIL index expression. *)
Definition bindIndex (n n_Target n_Key : ast.Node) : M BoundExpr :=
  boundTarget <- bindExpr n_Target ;;
  boundKey <- bindExpr n_Key ;;
  let targetType := BoundExpr_Type boundTarget in
  let exprType :=
    if IsList targetType then ElementType targetType else TypeUnknown in
  ret (BoundIndex n exprType (Some boundTarget) (Some boundKey)).

(** bindOutput binds an HIL output expression. *)
Definition bindOutput (n : ast.Node) (n_Exprs : list ast.Node) : M BoundExpr :=
  exprs <- bindExprs n_Exprs ;;
  match exprs with
  | [e] => ret e
  | _ => ret (BoundOutput n (map Some exprs))
  end.

End Cases.

(** bindLiteral binds an HIL literal expression. The literal must be of type
    bool, int, float, or string. *)
Definition bindLiteral (n_Value : ast.Value) (n_Typex : ast.Type_) : M BoundExpr :=
  match n_Typex with
  | ast.TypeBool => ret (BoundLiteral TypeBool n_Value)
  | ast.TypeInt | ast.TypeFloat => ret (BoundLiteral TypeNumber n_Value)
  | ast.TypeString => ret (BoundLiteral TypeString n_Value)
  | _ => fail (Errorf "Unexpected literal type %v" [ArgValue "n.Typex"])
  end.

(** The current builder. *)
Definition getBuilder : M builder := fun b => (Ok b, b).

(** The call [b.builder.ensureProvider(r)] and the node it leaves. *)
Definition callEnsureProvider (r : ResourceNode) : M ResourceNode :=
  fun b =>
    match ensureProvider ext r b with
    | (None, r', b') => (Ok r', b')
    | (Some err, _, b') => (Err err, b')
    end.

Definition callNewInterpolatedVariable (name : string)
  : M config.InterpolatedVariable :=
  fun b => (NewInterpolatedVariable ext name, b).

(** bindVariableAccess binds an HIL variable access expression. *)
Definition bindVariableAccess (n : ast.Node) (n_Name : string) : M BoundExpr :=
  tfVar <- callNewInterpolatedVariable n_Name ;;
  let done elements sch exprType ilNode :=
    ret (BoundVariableAccess n elements sch exprType tfVar ilNode) in
  match tfVar with
  | config.Count v =>
      match config.cv_Type v with
      | config.CountValueIndex =>
          if negb hasCountIndex
          then fail (Errorf "no count index in scope" [])
          else done [] Schemas_zero TypeNumber None
      | _ =>
          fail (Errorf "unsupported count variable %s" [ArgString (config.cv_key v)])
      end
  | config.Local_ v =>
      b <- getBuilder ;;
      match locals b !! config.lv_Name v with
      | None => fail (Errorf "unknown local %v" [ArgString (config.lv_Name v)])
      | Some _ =>
          done [] Schemas_zero (OutputOf TypeUnknown)
            (Some (LocalRef (config.lv_Name v)))
      end
  | config.Module_ v =>
      b <- getBuilder ;;
      match modules b !! config.mv_Name v with
      | None => fail (Errorf "unknown module %v" [ArgString (config.mv_Name v)])
      | Some _ =>
          done [] Schemas_zero (OutputOf TypeUnknown)
            (Some (ModuleRef (config.mv_Name v)))
      end
  | config.Path => fail (ErrorsNew "NYI: path variables")
  | config.Resource v =>
      b <- getBuilder ;;
      match resources b !! config.rv_ResourceId v with
      | None =>
          fail (Errorf "unknown resource %v" [ArgString (config.rv_ResourceId v)])
      | Some r =>
          r' <- callEnsureProvider r ;;
          let sch := ResourceNode_Schemas r' in
          let elements := strings_Split (config.rv_Field v) "." in
          let elemSch := fold_left PropertySchemas elements sch in
          let exprType := OutputOf (Schemas_Type elemSch) in
          let exprType :=
            if config.rv_Multi v && (config.rv_Index v =? -1)
            then ListOf exprType else exprType in
          done elements sch exprType
            (Some (ResourceRef (config.rv_ResourceId v)))
      end
  | config.Self => fail (ErrorsNew "NYI: self variables")
  | config.Simple => fail (ErrorsNew "NYI: simple variables")
  | config.Terraform => fail (ErrorsNew "NYI: terraform variables")
  | config.User v =>
      if negb (String.eqb (config.uv_Elem v) "")
      then fail (ErrorsNew "NYI: user variable elements")
      else
        b <- getBuilder ;;
        match variables b !! config.uv_Name v with
        | None =>
            fail (Errorf "unknown variable %s" [ArgString (config.uv_Name v)])
        | Some vn =>
            let exprType :=
              match DefaultValue vn with
              | Some d =>
                  if negb (bool_decide (BoundExpr_Type d = TypeString))
                  then TypeUnknown else TypeString
              | None => TypeString
              end in
            done [] Schemas_zero exprType
              (Some (VariableRef (config.uv_Name v)))
        end
  | config.Unexpected =>
      fail (Errorf "unexpected variable type %T" [ArgValue "v"])
  end.

(** bindExpr binds a single HIL expression. *)
Fixpoint bindExpr (n : ast.Node) : M BoundExpr :=
  match n with
  | ast.Arithmetic _ exprs => bindArithmetic bindExpr n exprs
  | ast.Call func args => bindCall bindExpr n func args
  | ast.Conditional c t f => bindConditional bindExpr n c t f
  | ast.Index target key => bindIndex bindExpr n target key
  | ast.LiteralNode value typex => bindLiteral value typex
  | ast.Output exprs => bindOutput bindExpr n exprs
  | ast.VariableAccess name => bindVariableAccess n name
  | ast.Other => fail (Errorf "unexpected HIL node type %T" [ArgValue "n"])
  end.

End Binder.

(** ** The bound-tree visitor *)

(** A visitor is a Go closure: it may keep state of its own between calls.
    The state is threaded explicitly through a traversal.  A tree is a value:
    where the Go code assigns to a field of the node it visits, the embedding
    builds the node with the new field (each bound node owns its children).

    A pre visitor may answer with a node larger than the one it was given, so
    a traversal need not end; [VisitBoundNode] takes a bound on the depth of
    its recursion and answers [None] when the bound is reached. *)

Section Visitor.

Variable St : Type.

(** A BoundNodeVisitor is a function that visits and optionally replaces a
    node in a bound property tree. *)
Definition BoundNodeVisitor : Type :=
  option BoundNode -> St -> res (option BoundNode) * St.

(** IdentityVisitor is a BoundNodeVisitor that returns the input node
    unchanged. *)
Definition IdentityVisitor : BoundNodeVisitor := fun n s => (Ok n, s).

Definition V (A : Type) : Type := St -> option (res A * St).

Definition vret {A : Type} (a : A) : V A := fun s => Some (Ok a, s).
Definition vcrash {A : Type} (p : panic) : V A := fun s => Some (Panic p, s).

Definition vbind {A B : Type} (m : V A) (k : A -> V B) : V B :=
  fun s =>
    match m s with
    | None => None
    | Some (Ok a, s') => k a s'
    | Some (Err e, s') => Some (Err e, s')
    | Some (Panic p, s') => Some (Panic p, s')
    end.

(** The call of a visitor. *)
Definition visit (f : BoundNodeVisitor) (n : option BoundNode)
  : V (option BoundNode) :=
  fun s => Some (f n s).

Declare Scope visitor_scope.
Delimit Scope visitor_scope with visitor.
Notation "x <- m ;; k" := (vbind m (fun x => k))
  (at level 100, m at next level, right associativity) : visitor_scope.
Local Open Scope visitor_scope.

Definition isNil {A : Type} (x : option A) : bool :=
  match x with
  | None => true
  | Some _ => false
  end.

(** The number of nil entries of a slice, and the slice without them. *)
Definition countNils {A : Type} (ns : list (option A)) : nat :=
  length (List.filter isNil ns).
Definition dropNils {A : Type} (ns : list (option A)) : list (option A) :=
  List.filter (fun e => negb (isNil e)) ns.

Variables pre post : BoundNodeVisitor.

Section Cases.

(** The recursive call [VisitBoundNode(_, pre, post)]. *)
Variable VisitBoundNode : option BoundNode -> V (option BoundNode).

(** VisitBoundExpr visits each node in an expression tree using the given
    pre- and post-order visitors. *)
Definition VisitBoundExpr (n : option BoundExpr) : V (option BoundExpr) :=
  nn <- VisitBoundNode (asNode n) ;;
  match nn with
  | None => vret None
  | Some (ExprNode e) => vret (Some e)
  | Some _ => vcrash (TypeAssertionFailed "BoundExpr")
  end.

(** The first loop of [visitBoundExprs]: every element is visited and the
    slice is updated in place. *)
Fixpoint visitEachExpr (ns : list (option BoundExpr))
  : V (list (option BoundExpr)) :=
  match ns with
  | [] => vret []
  | e :: ns' =>
      ee <- VisitBoundExpr e ;;
      rest <- visitEachExpr ns' ;;
      vret (ee :: rest)
  end.

Definition visitBoundExprs (ns : list (option BoundExpr))
  : V (list (option BoundExpr)) :=
  ns <- visitEachExpr ns ;;
  let nils := countNils ns in
  if Nat.eqb nils 0 then vret ns
  else if Nat.eqb nils (length ns) then vret []
  else vret (dropNils ns).

(** The first loop of [visitBoundNodes]. *)
Fixpoint visitEachNode (ns : list (option BoundNode))
  : V (list (option BoundNode)) :=
  match ns with
  | [] => vret []
  | e :: ns' =>
      ee <- VisitBoundNode e ;;
      rest <- visitEachNode ns' ;;
      vret (ee :: rest)
  end.

Definition visitBoundNodes (ns : list (option BoundNode))
  : V (list (option BoundNode)) :=
  ns <- visitEachNode ns ;;
  let nils := countNils ns in
  if Nat.eqb nils 0 then vret ns
  else if Nat.eqb nils (length ns) then vret []
  else vret (dropNils ns).

Definition visitBoundArithmetic (HILNode : ast.Node)
    (n_Exprs : list (option BoundExpr)) : V (option BoundNode) :=
  exprs <- visitBoundExprs n_Exprs ;;
  if Nat.eqb (length exprs) 0 then vret None
  else visit post (Some (ExprNode (BoundArithmetic HILNode exprs))).

Definition visitBoundCall (HILNode : ast.Node) (ExprType : Type_)
    (n_Args : list (option BoundExpr)) : V (option BoundNode) :=
  exprs <- visitBoundExprs n_Args ;;
  visit post (Some (ExprNode (BoundCall HILNode ExprType exprs))).

Definition visitBoundConditional (HILNode : ast.Node) (ExprType : Type_)
    (n_CondExpr n_TrueExpr n_FalseExpr : option BoundExpr)
  : V (option BoundNode) :=
  condExpr <- VisitBoundExpr n_CondExpr ;;
  trueExpr <- VisitBoundExpr n_TrueExpr ;;
  falseExpr <- VisitBoundExpr n_FalseExpr ;;
  visit post
    (Some (ExprNode (BoundConditional HILNode ExprType condExpr trueExpr falseExpr))).

Definition visitBoundIndex (HILNode : ast.Node) (ExprType : Type_)
    (n_TargetExpr n_KeyExpr : option BoundExpr) : V (option BoundNode) :=
  targetExpr <- VisitBoundExpr n_TargetExpr ;;
  keyExpr <- VisitBoundExpr n_KeyExpr ;;
  visit post (Some (ExprNode (BoundIndex HILNode ExprType targetExpr keyExpr))).

Definition visitBoundListProperty (n_Elements : list (option BoundNode))
  : V (option BoundNode) :=
  exprs <- visitBoundNodes n_Elements ;;
  if Nat.eqb (length exprs) 0 then vret None
  else visit post (Some (BoundListProperty exprs)).

(** The loop of [visitBoundMapProperty]: an entry whose value is deleted is
    removed from the map, any other is updated. *)
Fixpoint visitEntries (es : list (string * option BoundNode))
  : V (list (string * option BoundNode)) :=
  match es with
  | [] => vret []
  | (k, e) :: es' =>
      ee <- VisitBoundNode e ;;
      rest <- visitEntries es' ;;
      if isNil ee then vret rest else vret ((k, ee) :: rest)
  end.

Definition visitBoundMapProperty (n_Elements : list (string * option BoundNode))
  : V (option BoundNode) :=
  elements <- visitEntries n_Elements ;;
  visit post (Some (BoundMapProperty elements)).

Definition visitBoundOutput (HILNode : ast.Node)
    (n_Exprs : list (option BoundExpr)) : V (option BoundNode) :=
  exprs <- visitBoundExprs n_Exprs ;;
  if Nat.eqb (length exprs) 0 then vret None
  else visit post (Some (ExprNode (BoundOutput HILNode exprs))).

End Cases.

(** VisitBoundNode visits each node in a property tree using the given pre-
    and post-order visitors.  The nil interface matches no case of the type
    switch and reaches its default, [contract.Failf]. *)
Fixpoint VisitBoundNode (depth : nat) (n : option BoundNode)
  : V (option BoundNode) :=
  match depth with
  | O => fun _ => None
  | S depth' =>
      let recur := VisitBoundNode depth' in
      n <- visit pre n ;;
      match n with
      | Some (ExprNode (BoundArithmetic h exprs)) =>
          visitBoundArithmetic recur h exprs
      | Some (ExprNode (BoundCall h t args)) =>
          visitBoundCall recur h t args
      | Some (ExprNode (BoundConditional h t c tr fl)) =>
          visitBoundConditional recur h t c tr fl
      | Some (ExprNode (BoundIndex h t target key)) =>
          visitBoundIndex recur h t target key
      | Some (BoundListProperty elements) =>
          visitBoundListProperty recur elements
      | Some (ExprNode (BoundLiteral _ _)) => visit post n
      | Some (BoundMapProperty elements) =>
          visitBoundMapProperty recur elements
      | Some (ExprNode (BoundOutput h exprs)) =>
          visitBoundOutput recur h exprs
      | Some (ExprNode (BoundVariableAccess _ _ _ _ _ _)) => visit post n
      | None =>
          vcrash (ContractFailure "unexpected node type in visitBoundExpr: %T")
      end
  end.

End Visitor.

Arguments IdentityVisitor {St} n s.

(** The results of visiting the elements of a slice one after the other:
    [VisitsTo visitOne ns s rs s'] when the element [i] of [ns], visited in
    the state the elements before it left, gives the element [i] of [rs], and
    the last visit leaves [s']. *)
Inductive VisitsTo {St A B : Type} (visitOne : A -> V St B)
  : list A -> St -> list B -> St -> Prop :=
| VisitsTo_nil : forall s, VisitsTo visitOne [] s [] s
| VisitsTo_cons : forall e es s r s1 rs s2,
    visitOne e s = Some (Ok r, s1) ->
    VisitsTo visitOne es s1 rs s2 ->
    VisitsTo visitOne (e :: es) s (r :: rs) s2.

(** [extends f g]: wherever [f] ends, [g] ends with the same result. *)
Definition extends {St A B : Type} (f g : A -> V St B) : Prop :=
  forall a s r, f a s = Some r -> g a s = Some r.

(** The results of binding the elements of a slice one after the other. *)
Inductive BindsTo (bindOne : ast.Node -> M BoundExpr)
  : list ast.Node -> builder -> list BoundExpr -> builder -> Prop :=
| BindsTo_nil : forall b, BindsTo bindOne [] b [] b
| BindsTo_cons : forall n ns b bn b1 bns b2,
    bindOne n b = (Ok bn, b1) ->
    BindsTo bindOne ns b1 bns b2 ->
    BindsTo bindOne (n :: ns) b (bn :: bns) b2.

(** The height of a tree; the nil interface counts for one visit. *)
Fixpoint exprHeight (e : BoundExpr) : nat :=
  let child (o : option BoundExpr) : nat :=
    match o with
    | Some e' => exprHeight e'
    | None => 1%nat
    end in
  match e with
  | BoundArithmetic _ exprs => S (list_max (map child exprs))
  | BoundCall _ _ args => S (list_max (map child args))
  | BoundConditional _ _ c t f => S (Nat.max (child c) (Nat.max (child t) (child f)))
  | BoundIndex _ _ target key => S (Nat.max (child target) (child key))
  | BoundLiteral _ _ => 1%nat
  | BoundOutput _ exprs => S (list_max (map child exprs))
  | BoundVariableAccess _ _ _ _ _ _ => 1%nat
  end.

Definition exprHeightOpt (o : option BoundExpr) : nat :=
  match o with
  | Some e => exprHeight e
  | None => 1%nat
  end.

Fixpoint nodeHeight (n : BoundNode) : nat :=
  let child (o : option BoundNode) : nat :=
    match o with
    | Some n' => nodeHeight n'
    | None => 1%nat
    end in
  match n with
  | ExprNode e => exprHeight e
  | BoundListProperty elements => S (list_max (map child elements))
  | BoundMapProperty elements =>
      S (list_max (map (fun entry : string * option BoundNode => child (snd entry))
                       elements))
  end.

Definition nodeHeightOpt (o : option BoundNode) : nat :=
  match o with
  | Some n => nodeHeight n
  | None => 1%nat
  end.

(** A [BoundNode] that implements [BoundExpr]. *)
Definition isBoundExpr (n : BoundNode) : bool :=
  match n with
  | ExprNode _ => true
  | _ => false
  end.

(** ** A small configuration, used to exercise the binder *)

Module Example.

(** What [config.NewInterpolatedVariable] answers on six names. *)
Definition parseName (name : string)
  : res config.InterpolatedVariable :=
  if String.eqb name "count.index" then
    Ok (config.Count {| config.cv_Type := config.CountValueIndex;
                        config.cv_key := "count.index" |})
  else if String.eqb name "count.total" then
    Ok (config.Count {| config.cv_Type := config.CountValueInvalid;
                        config.cv_key := "count.total" |})
  else if String.eqb name "var.region" then
    Ok (config.User {| config.uv_Name := "region"; config.uv_Elem := "" |})
  else if String.eqb name "var.replicas" then
    Ok (config.User {| config.uv_Name := "replicas"; config.uv_Elem := "" |})
  else if String.eqb name "aws_instance.web.name" then
    Ok (config.Resource {| config.rv_ResourceId := "aws_instance.web";
                           config.rv_Field := "name";
                           config.rv_Multi := false;
                           config.rv_Index := 0 |})
  else if String.eqb name "aws_instance.web.*.name" then
    Ok (config.Resource {| config.rv_ResourceId := "aws_instance.web";
                           config.rv_Field := "name";
                           config.rv_Multi := true;
                           config.rv_Index := -1 |})
  else Err (ExternalError "invalid interpolation").

(** A provider is found for every resource. *)
Definition findProvider (r : ResourceNode) (b : builder)
  : option error * ResourceNode * builder :=
  (None,
   {| Provider := Some "aws";
      Config_Type := Config_Type r;
      Config_Name := Config_Name r;
      ResourceNode_Schemas := ResourceNode_Schemas r |},
   b).

Definition arithmeticType (n : ast.Node) (exprs : list (option BoundExpr)) : Type_ :=
  TypeNumber.
Definition outputType (n : ast.Node) (exprs : list (option BoundExpr)) : Type_ :=
  TypeString.

(** The resource [aws_instance.web], of schema [{"name": String}]. *)
Definition web : ResourceNode :=
  {| Provider := None;
     Config_Type := "aws_instance";
     Config_Name := "web";
     ResourceNode_Schemas :=
       MkSchemas TypeUnknown [("name", MkSchemas TypeString [])] |}.

(** Two variables: [region] has no default, [replicas] defaults to 3. *)
Definition theBuilder : builder :=
  {| locals := ∅;
     modules := ∅;
     resources := {[ "aws_instance.web" := web ]};
     variables :=
       {[ "region" := {| DefaultValue := None |};
          "replicas" :=
            {| DefaultValue := Some (BoundLiteral TypeNumber (ast.VInt 3)) |} ]} |}.

Definition ext : Externals :=
  {| NewInterpolatedVariable := parseName;
     ensureProvider := findProvider;
     BoundArithmetic_Type := arithmeticType;
     BoundOutput_Type := outputType |}.

Definition bind (hasCountIndex : bool) : ast.Node -> M BoundExpr :=
  bindExpr ext hasCountIndex.

Definition typeOf : BoundExpr -> Type_ := BoundExpr_Type ext.

Definition str (s : string) : ast.Node :=
  ast.LiteralNode (ast.VString s) ast.TypeString.
Definition num (i : Z) : ast.Node :=
  ast.LiteralNode (ast.VInt i) ast.TypeInt.
Definition yes : ast.Node :=
  ast.LiteralNode (ast.VBool true) ast.TypeBool.

Definition boundStr (s : string) : BoundExpr :=
  BoundLiteral TypeString (ast.VString s).
Definition boundNum (i : Z) : BoundExpr :=
  BoundLiteral TypeNumber (ast.VInt i).
Definition boundYes : BoundExpr :=
  BoundLiteral TypeBool (ast.VBool true).

(** The four variable names the examples bind. *)
Definition countIndex : ast.Node := ast.VariableAccess "count.index".
Definition varReplicas : ast.Node := ast.VariableAccess "var.replicas".
Definition webName : ast.Node := ast.VariableAccess "aws_instance.web.name".
Definition webSplatName : ast.Node :=
  ast.VariableAccess "aws_instance.web.*.name".

End Example.

(** ** Visitors and trees, used to exercise the traversal *)

Module VisitExample.

(** The state of the visitors below: the nodes given to post, latest
    first. *)
Definition Log : Type := list (option BoundNode).

(** A post visitor that records its argument and deletes every literal. *)
Definition deleteLiterals : BoundNodeVisitor Log :=
  fun n log =>
    match n with
    | Some (ExprNode (BoundLiteral _ _)) => (Ok None, n :: log)
    | _ => (Ok n, n :: log)
    end.

(** A post visitor that records its argument and deletes the literal 2. *)
Definition deleteTwo : BoundNodeVisitor Log :=
  fun n log =>
    match n with
    | Some (ExprNode (BoundLiteral _ (ast.VInt 2))) => (Ok None, n :: log)
    | _ => (Ok n, n :: log)
    end.

(** A pre visitor that deletes every node. *)
Definition deleteEverything : BoundNodeVisitor Log :=
  fun _ log => (Ok None, log).

(** A post visitor that records its argument and replaces every node by an
    empty map property. *)
Definition replaceByMap : BoundNodeVisitor Log :=
  fun n log => (Ok (Some (BoundMapProperty [])), n :: log).

Definition lit (i : Z) : BoundExpr := BoundLiteral TypeNumber (ast.VInt i).

Definition sumNode : ast.Node :=
  ast.Arithmetic 1 [Example.num 1; Example.num 2; Example.num 3].
Definition sum (exprs : list (option BoundExpr)) : BoundExpr :=
  BoundArithmetic sumNode exprs.

Definition listNode : ast.Node := ast.Call "list" [Example.num 1].
Definition listCall (args : list (option BoundExpr)) : BoundExpr :=
  BoundCall listNode (ListOf TypeUnknown) args.

End VisitExample.

(** ** Further vocabulary for the properties *)

Definition nonEmpty {A : Type} (l : list A) : bool :=
  match l with
  | [] => false
  | _ :: _ => true
  end.

(** The function names the switch of [bindCall] lists. *)
Definition supportedCalls : list string :=
  ["base64decode"; "base64encode"; "chomp"; "element"; "file"; "format";
   "list"; "lookup"; "map"; "split"].

(** [strings.Join(elems, sep)]. *)
Fixpoint strings_Join (elems : list string) (sep : string) : string :=
  match elems with
  | [] => ""
  | e :: rest =>
      match rest with
      | [] => e
      | _ => e ++ sep ++ strings_Join rest sep
      end
  end.

(** The type [bindVariableAccess] gives to a resource access whose leaf has
    the type [leaf]. *)
Definition resourceAccessType (v : config.ResourceVariable) (leaf : Type_) : Type_ :=
  if config.rv_Multi v && (config.rv_Index v =? -1)
  then ListOf (OutputOf leaf) else OutputOf leaf.

(** [keeps I m]: the step [m] of the binder leaves a builder that satisfies
    [I] when it starts from one, whatever it returns. *)
Definition keeps (I : builder -> Prop) {A : Type} (m : M A) : Prop :=
  forall b, I b -> I (snd (m b)).

(** A syntax tree in which every Arithmetic and every Output has an
    operand. *)
Fixpoint astProper (n : ast.Node) : bool :=
  match n with
  | ast.Arithmetic _ exprs => nonEmpty exprs && forallb astProper exprs
  | ast.Call _ args => forallb astProper args
  | ast.Conditional c t f => astProper c && astProper t && astProper f
  | ast.Index target key => astProper target && astProper key
  | ast.LiteralNode _ _ => true
  | ast.Output exprs => nonEmpty exprs && forallb astProper exprs
  | ast.VariableAccess _ => true
  | ast.Other => true
  end.

(** An output wrapped [k] times around a node. *)
Fixpoint wrapOutput (k : nat) (n : ast.Node) : ast.Node :=
  match k with
  | O => n
  | S k' => ast.Output [wrapOutput k' n]
  end.

(** A bound expression without nil interface in any slot or slice. *)
Fixpoint exprComplete (e : BoundExpr) : bool :=
  let child (o : option BoundExpr) : bool :=
    match o with
    | Some e' => exprComplete e'
    | None => false
    end in
  match e with
  | BoundArithmetic _ exprs => forallb child exprs
  | BoundCall _ _ args => forallb child args
  | BoundConditional _ _ c t f => child c && child t && child f
  | BoundIndex _ _ target key => child target && child key
  | BoundLiteral _ _ => true
  | BoundOutput _ exprs => forallb child exprs
  | BoundVariableAccess _ _ _ _ _ _ => true
  end.

(** A bound tree without nil interface in any slot, slice or map entry, and
    without an Arithmetic, an Output or a ListProperty that has no child. *)
Fixpoint exprSolid (e : BoundExpr) : bool :=
  let child (o : option BoundExpr) : bool :=
    match o with
    | Some e' => exprSolid e'
    | None => false
    end in
  match e with
  | BoundArithmetic _ exprs => nonEmpty exprs && forallb child exprs
  | BoundCall _ _ args => forallb child args
  | BoundConditional _ _ c t f => child c && child t && child f
  | BoundIndex _ _ target key => child target && child key
  | BoundLiteral _ _ => true
  | BoundOutput _ exprs => nonEmpty exprs && forallb child exprs
  | BoundVariableAccess _ _ _ _ _ _ => true
  end.

Definition exprSolidOpt (o : option BoundExpr) : bool :=
  match o with
  | Some e => exprSolid e
  | None => false
  end.

Fixpoint nodeSolid (n : BoundNode) : bool :=
  let child (o : option BoundNode) : bool :=
    match o with
    | Some n' => nodeSolid n'
    | None => false
    end in
  match n with
  | ExprNode e => exprSolid e
  | BoundListProperty elements => nonEmpty elements && forallb child elements
  | BoundMapProperty elements =>
      forallb (fun entry : string * option BoundNode => child (snd entry)) elements
  end.

Definition nodeSolidOpt (o : option BoundNode) : bool :=
  match o with
  | Some n => nodeSolid n
  | None => false
  end.

(** The entries of a map property that are left when the values have been
    visited to [rs]: the keys whose result is not nil, with the result. *)
Definition survivingEntries (keys : list string) (rs : list (option BoundNode))
  : list (string * option BoundNode) :=
  List.filter (fun entry : string * option BoundNode => negb (isNil (snd entry)))
    (combine keys rs).

(** The panic of the type assertion in [VisitBoundExpr]. *)
Definition castFailure : panic := TypeAssertionFailed "BoundExpr".

(** A result other than the panic of the type assertion. *)
Definition notCastFailure {A : Type} (r : res A) : Prop := r <> Panic castFailure.

(** An interface value that is nil or holds an expression node. *)
Definition exprOrNil (o : option BoundNode) : bool :=
  match o with
  | None => true
  | Some n => isBoundExpr n
  end.

(** A visitor that answers an expression node or nil when it is given one,
    and that does not itself panic like the type assertion. *)
Definition wellTyped {St : Type} (f : BoundNodeVisitor St) : Prop :=
  forall n s,
    match fst (f n s) with
    | Ok r => exprOrNil n = true -> exprOrNil r = true
    | Err _ => True
    | Panic p => p <> castFailure
    end.

(** ** The generator of http resources (package nodejs) *)

(** The state of a generator: what [computeProperty] keeps between calls,
    and the text written to the standard output so far. *)
Record genState (Gs : Type) := {
  gen_inner : Gs;
  gen_stdout : string
}.
Arguments gen_inner {Gs} g.
Arguments gen_stdout {Gs} g.

(** A line feed. *)
Definition nl : string := String (ascii_of_nat 10) EmptyString.

(** What [fmt] writes for the verb [%s] and an operand of type bool: the
    verb does not apply to a bool. *)
Definition fmt_s_bool (b : bool) : string :=
  if b then "%!s(bool=true)" else "%!s(bool=false)".

Definition missing_url_message : string :=
  "missing required property " ++ dquote ++ "url" ++ dquote ++ " in resource %s".

Section Generator.

Variable Gs : Type.

(** [Generator.computeProperty(prop, indent, count)], which the generator of
    http resources calls and does not define; of its three results the
    second is discarded at every call below. *)
Variable computeProperty :
  option BoundNode -> bool -> string -> Gs -> res string * Gs.

(** [resName(typ, name)], the name of the variable a resource is bound to. *)
Variable resName : string -> string -> string.

Definition Gen (A : Type) : Type := genState Gs -> res A * genState Gs.

Definition gret {A : Type} (a : A) : Gen A := fun g => (Ok a, g).
Definition gfail {A : Type} (e : error) : Gen A := fun g => (Err e, g).
Definition gcrash {A : Type} (p : panic) : Gen A := fun g => (Panic p, g).

Definition gbind {A B : Type} (m : Gen A) (k : A -> Gen B) : Gen B :=
  fun g =>
    match m g with
    | (Ok a, g') => k a g'
    | (Err e, g') => (Err e, g')
    | (Panic p, g') => (Panic p, g')
    end.

Declare Scope gen_scope.
Delimit Scope gen_scope with gen.
Notation "x <- m ;; k" := (gbind m (fun x => k))
  (at level 100, m at next level, right associativity) : gen_scope.
Local Open Scope gen_scope.

Definition callComputeProperty (prop : option BoundNode) (indent : bool)
    (count : string) : Gen string :=
  fun g =>
    match computeProperty prop indent count (gen_inner g) with
    | (r, inner) => (r, {| gen_inner := inner; gen_stdout := gen_stdout g |})
    end.

(** [fmt.Printf] of a text that is already formatted. *)
Definition printf (text : string) : Gen unit :=
  fun g =>
    (Ok tt, {| gen_inner := gen_inner g; gen_stdout := gen_stdout g ++ text |}).

(** computeHTTPInputs computes the arguments for a call to
    request-promise-native's single function from the bound input properties
    of the given http resource.  [elements] is [r.Properties.Elements], a map
    kept as the list of its entries. *)
Definition computeHTTPInputs (r_Config_Name : string)
    (elements : list (string * option BoundNode)) (indent : bool) (count : string)
  : Gen string :=
  match assoc_lookup "url" elements with
  | None => gfail (Errorf missing_url_message [ArgString r_Config_Name])
  | Some urlProperty =>
      url <- callComputeProperty urlProperty indent count ;;
      match assoc_lookup "request_headers" elements with
      | None => gret url
      | Some requestHeadersProperty =>
          requestHeaders <- callComputeProperty requestHeadersProperty true count ;;
          gret ("{" ++ nl
                ++ fmt_s_bool indent ++ "    url: " ++ url ++ "," ++ nl
                ++ fmt_s_bool indent ++ "    headers: " ++ requestHeaders ++ "," ++ nl
                ++ fmt_s_bool indent ++ "}")
      end
  end.

(** generateHTTP generates the given http resource as a call to
    request-promise-native's single exported function.  [providerName] is
    [r.Provider.Config.Name] and [r_Count] is [r.Count]; the resource is
    taken to have its provider and its properties set (the Go code
    dereferences both). *)
Definition generateHTTP (providerName r_Config_Type r_Config_Name : string)
    (elements : list (string * option BoundNode)) (r_Count : option BoundNode)
  : Gen unit :=
  if negb (String.eqb providerName "http") then gcrash (ContractFailure "r")
  else
    let name := resName r_Config_Type r_Config_Name in
    match r_Count with
    | None =>
        inputs <- computeHTTPInputs r_Config_Name elements false "" ;;
        printf ("const " ++ name ++ " = pulumi.output(rpn(" ++ inputs
                ++ ").promise());" ++ nl)
    | Some _ =>
        count <- callComputeProperty r_Count false "" ;;
        inputs <- computeHTTPInputs r_Config_Name elements true "i" ;;
        _ <- printf ("const " ++ name ++ ": pulumi.Output<string>[] = [];" ++ nl) ;;
        _ <- printf ("for (let i = 0; i < " ++ count ++ "; i++) {" ++ nl) ;;
        _ <- printf ("    " ++ name ++ ".push(pulumi.output(rpn(" ++ inputs
                     ++ ").promise()));" ++ nl) ;;
        printf ("}" ++ nl)
    end.

End Generator.

(** ** More of the example configuration *)

Module MoreExamples.

(** A builder that knows nothing. *)
Definition emptyBuilder : builder :=
  {| locals := ∅; modules := ∅; resources := ∅; variables := ∅ |}.

(** A name the parser of the example rejects. *)
Definition badName : ast.Node := ast.VariableAccess "nope".
Definition badNameError : error := ExternalError "invalid interpolation".

Definition varRegion : ast.Node := ast.VariableAccess "var.region".

(** The access [aws_instance.web.*.name] as the binder returns it. *)
Definition boundWebSplatName : BoundExpr :=
  BoundVariableAccess Example.webSplatName ["name"]
    (MkSchemas TypeUnknown [("name", MkSchemas TypeString [])])
    (ListOf (OutputOf TypeString))
    (config.Resource {| config.rv_ResourceId := "aws_instance.web";
                        config.rv_Field := "name";
                        config.rv_Multi := true;
                        config.rv_Index := -1 |})
    (Some (ResourceRef "aws_instance.web")).

(** The resource [aws_instance.web] once its provider is found. *)
Definition webWithProvider : ResourceNode :=
  {| Provider := Some "aws";
     Config_Type := "aws_instance";
     Config_Name := "web";
     ResourceNode_Schemas :=
       MkSchemas TypeUnknown [("name", MkSchemas TypeString [])] |}.

(** A post visitor that records its argument and fails on the literal 2. *)
Definition failOnTwo : BoundNodeVisitor VisitExample.Log :=
  fun n log =>
    match n with
    | Some (ExprNode (BoundLiteral _ (ast.VInt 2))) => (Err (ErrorsNew "two"), log)
    | _ => (Ok n, n :: log)
    end.

(** The conditional [2 ? 1 : 3], bound, and what is left of it when the
    condition is deleted. *)
Definition choiceNode : ast.Node :=
  ast.Conditional (Example.num 2) (Example.num 1) (Example.num 3).
Definition choice (c : option BoundExpr) : BoundExpr :=
  BoundConditional choiceNode TypeNumber c
    (Some (VisitExample.lit 1)) (Some (VisitExample.lit 3)).

(** The three operands of [VisitExample.sum]. *)
Definition oneTwoThree : list (option BoundExpr) :=
  [Some (VisitExample.lit 1); Some (VisitExample.lit 2); Some (VisitExample.lit 3)].

(** A map property of two entries. *)
Definition twoEntries : list (string * option BoundNode) :=
  [("a", Some (ExprNode (VisitExample.lit 1)));
   ("b", Some (ExprNode (VisitExample.lit 2)))].

(** A [computeProperty] that writes every property as [p] and counts its
    calls, and a [resName] that keeps the name. *)
Definition countingComputeProperty (prop : option BoundNode) (indent : bool)
    (count : string) (calls : nat) : res string * nat :=
  (Ok "p", S calls).
Definition plainResName (typ name : string) : string := name.

(** The properties of an http resource with a url and request headers. *)
Definition httpProperties : list (string * option BoundNode) :=
  [("url", Some (ExprNode (Example.boundStr "u")));
   ("request_headers", Some (BoundMapProperty []))].

End MoreExamples.

(** * Properties of the binder *)

Unset Implicit Arguments.

Lemma Z_even_of_nat (n : nat) : Z.even (Z.of_nat n) = Nat.even n.
Proof.
  apply eq_true_iff_eq. rewrite Z.even_spec, Nat.even_spec.
  split; intros [k Hk].
  - exists (Z.to_nat k). lia.
  - exists (Z.of_nat k). lia.
Qed.

Section BinderFacts.

Variable ext : Externals.

(** [bindExprs] binds the elements in order and stops at the first that
    does not bind. *)
Lemma bindExprs_BindsTo (bindOne : ast.Node -> M BoundExpr) ns :
  forall b bns b',
    bindExprs bindOne ns b = (Ok bns, b') <-> BindsTo bindOne ns b bns b'.
Proof.
  induction ns as [|n ns IH]; intros b bns b'; simpl.
  - split.
    + intros H. unfold ret in H. inversion H; subst. constructor.
    + intros H. inversion H; subst. reflexivity.
  - unfold bind at 1. split.
    + destruct (bindOne n b) as [[bn|e|p] b1] eqn:E1; try discriminate.
      unfold bind at 1.
      destruct (bindExprs bindOne ns b1) as [[rest|e|p] b2] eqn:E2;
        try discriminate.
      unfold ret. intros H. inversion H; subst.
      econstructor; [exact E1 | apply IH; exact E2].
    + intros H. inversion H as [|? ? ? ? b1 ? ? Hn Hns]; subst.
      rewrite Hn. unfold bind.
      apply IH in Hns. rewrite Hns. reflexivity.
Qed.

Lemma BindsTo_length (bindOne : ast.Node -> M BoundExpr) ns b bns b' :
  BindsTo bindOne ns b bns b' -> length bns = length ns.
Proof. induction 1; simpl; congruence. Qed.

(** *** Calls *)

(** C4. A call to [map] whose arguments bind, whatever they are, binds to a
    call of type Map when the number of arguments is even, and fails with
    the arity error when it is odd. *)
Theorem bindCall_map_arity :
  forall hasCountIndex args b bargs b',
    BindsTo (bindExpr ext hasCountIndex) args b bargs b' ->
    let n := ast.Call "map" args in
    (Nat.even (length args) = true ->
     bindExpr ext hasCountIndex n b = (Ok (BoundCall n TypeMap (map Some bargs)), b')
     /\ BoundExpr_Type ext (BoundCall n TypeMap (map Some bargs)) = TypeMap)
    /\ (Nat.even (length args) = false ->
        bindExpr ext hasCountIndex n b = (Err (Errorf map_arity_message []), b')).
Proof.
  intros hc args b bargs b' Hargs n.
  assert (Hlen : length bargs = length args) by (eapply BindsTo_length; eauto).
  apply bindExprs_BindsTo in Hargs.
  assert (Hcall : bindExpr ext hc n b =
            if negb (Z.of_nat (length bargs) mod 2 =? 0)
            then (Err (Errorf map_arity_message []), b')
            else (Ok (BoundCall n TypeMap (map Some bargs)), b')).
  { subst n. cbn [bindExpr]. unfold bindCall. unfold bind at 1.
    rewrite Hargs. cbn [String.eqb Ascii.eqb Bool.eqb].
    destruct (negb _); reflexivity. }
  rewrite Hlen, <- Zeven_mod, Z_even_of_nat in Hcall.
  split; intros Hev; rewrite Hev in Hcall; simpl in Hcall.
  - split; [exact Hcall | reflexivity].
  - exact Hcall.
Qed.

(** C9. A call to [element] without arguments: the arguments bind (there
    are none), and the rule for the result type reads [args[0]] of an empty
    slice; the binder panics with an index out of range. *)
Theorem bindCall_element_no_arguments :
  forall hasCountIndex b,
    bindExpr ext hasCountIndex (ast.Call "element" []) b
    = (Panic (IndexOutOfRange 0 0), b).
Proof. intros hc b. reflexivity. Qed.

(** *** Conditionals *)

(** C5. When the condition and the two branches bind, the conditional binds
    to a node that holds the three bound expressions as they are; its type
    is the type of the true branch when the false branch has the same type,
    and Unknown when it has another. *)
Theorem bindConditional_type :
  forall hasCountIndex c t f b bc b1 bt b2 bf b3,
    bindExpr ext hasCountIndex c b = (Ok bc, b1) ->
    bindExpr ext hasCountIndex t b1 = (Ok bt, b2) ->
    bindExpr ext hasCountIndex f b2 = (Ok bf, b3) ->
    let n := ast.Conditional c t f in
    exists ty,
      bindExpr ext hasCountIndex n b
      = (Ok (BoundConditional n ty (Some bc) (Some bt) (Some bf)), b3)
      /\ BoundExpr_Type ext (BoundConditional n ty (Some bc) (Some bt) (Some bf)) = ty
      /\ (BoundExpr_Type ext bt = BoundExpr_Type ext bf -> ty = BoundExpr_Type ext bt)
      /\ (BoundExpr_Type ext bt <> BoundExpr_Type ext bf -> ty = TypeUnknown).
Proof.
  intros hc c t f b bc b1 bt b2 bf b3 Hc Ht Hf n.
  exists (if negb (bool_decide (BoundExpr_Type ext bt = BoundExpr_Type ext bf))
          then TypeUnknown else BoundExpr_Type ext bt).
  split; [|split; [reflexivity|split]].
  - subst n. cbn [bindExpr]. unfold bindConditional, bind.
    rewrite Hc, Ht, Hf. reflexivity.
  - intros Heq. rewrite bool_decide_eq_true_2 by exact Heq. reflexivity.
  - intros Hne. rewrite bool_decide_eq_false_2 by exact Hne. reflexivity.
Qed.

(** *** Outputs *)

(** C6. When the sub-expressions of an output bind, one after the other, to
    [bs]: an output of exactly one sub-expression binds to that bound
    sub-expression itself, and an output of none or of two or more binds to
    an Output node that holds [bs], in order. *)
Theorem bindOutput_projection :
  forall hasCountIndex es b bs b',
    BindsTo (bindExpr ext hasCountIndex) es b bs b' ->
    let n := ast.Output es in
    (length es = 1%nat ->
     exists e, bs = [e] /\ bindExpr ext hasCountIndex n b = (Ok e, b'))
    /\ (length es <> 1%nat ->
        bindExpr ext hasCountIndex n b = (Ok (BoundOutput n (map Some bs)), b')).
Proof.
  intros hc es b bs b' Hes n.
  assert (Hlen : length bs = length es) by (eapply BindsTo_length; eauto).
  apply bindExprs_BindsTo in Hes.
  assert (Hout : bindExpr ext hc n b =
            match bs with
            | [e] => (Ok e, b')
            | _ => (Ok (BoundOutput n (map Some bs)), b')
            end).
  { subst n. cbn [bindExpr]. unfold bindOutput, bind. rewrite Hes.
    destruct bs as [|e [|e' bs']]; reflexivity. }
  split; intros Hn.
  - destruct bs as [|e [|e' bs']]; simpl in Hlen; try lia.
    exists e. split; [reflexivity | exact Hout].
  - destruct bs as [|e [|e' bs']]; simpl in Hlen; try lia; exact Hout.
Qed.

(** *** Variable accesses *)

(** C7. A count variable of sub-kind index fails to bind when no count index
    is in scope and binds to an access of type Number when one is; a count
    variable of any other sub-kind fails to bind, in scope or not. *)
Theorem bindVariableAccess_count :
  forall name v b,
    NewInterpolatedVariable ext name = Ok (config.Count v) ->
    let n := ast.VariableAccess name in
    let bound :=
      BoundVariableAccess n [] Schemas_zero TypeNumber (config.Count v) None in
    (config.cv_Type v = config.CountValueIndex ->
     bindExpr ext false n b = (Err (Errorf "no count index in scope" []), b)
     /\ bindExpr ext true n b = (Ok bound, b)
     /\ BoundExpr_Type ext bound = TypeNumber)
    /\ (config.cv_Type v <> config.CountValueIndex ->
        forall hasCountIndex,
          bindExpr ext hasCountIndex n b
          = (Err (Errorf "unsupported count variable %s"
                    [ArgString (config.cv_key v)]), b)).
Proof.
  intros name v b Hparse n bound.
  assert (Hbind : forall hc, bindExpr ext hc n b =
            bindVariableAccess ext hc n name b)
    by reflexivity.
  split.
  - intros Hidx. rewrite !Hbind.
    unfold bindVariableAccess, bind, callNewInterpolatedVariable.
    rewrite Hparse, Hidx. repeat split; reflexivity.
  - intros Hidx hc. rewrite Hbind.
    unfold bindVariableAccess, bind, callNewInterpolatedVariable.
    rewrite Hparse. destruct (config.cv_Type v); [reflexivity | congruence].
Qed.

(** C8. A user variable without element qualifier that names a known
    variable node binds to an access whose type is String when the variable
    has no default or a default of type String, and Unknown when it has a
    default of another type. *)
Theorem bindVariableAccess_user :
  forall hasCountIndex name v vn b,
    NewInterpolatedVariable ext name = Ok (config.User v) ->
    config.uv_Elem v = "" ->
    variables b !! config.uv_Name v = Some vn ->
    exists e,
      bindExpr ext hasCountIndex (ast.VariableAccess name) b = (Ok e, b)
      /\ (DefaultValue vn = None -> BoundExpr_Type ext e = TypeString)
      /\ (forall d, DefaultValue vn = Some d ->
                    BoundExpr_Type ext d = TypeString -> BoundExpr_Type ext e = TypeString)
      /\ (forall d, DefaultValue vn = Some d ->
                    BoundExpr_Type ext d <> TypeString -> BoundExpr_Type ext e = TypeUnknown).
Proof.
  intros hc name v vn b Hparse Helem Hvar.
  eexists. split.
  - cbn [bindExpr].
    unfold bindVariableAccess, bind, callNewInterpolatedVariable, getBuilder.
    rewrite Hparse, Helem. cbn [String.eqb negb]. rewrite Hvar. reflexivity.
  - cbn [BoundExpr_Type]. repeat split.
    + intros ->. reflexivity.
    + intros d -> Hd. rewrite bool_decide_eq_true_2 by exact Hd. reflexivity.
    + intros d -> Hd. rewrite bool_decide_eq_false_2 by exact Hd. reflexivity.
Qed.


End BinderFacts.

(** *** The binder on the example configuration *)

Lemma bindCall_map_arity_witness :
  let args := [Example.str "a"; Example.num 1] in
  let bargs := [Example.boundStr "a"; Example.boundNum 1] in
  BindsTo (Example.bind false) args Example.theBuilder bargs Example.theBuilder
  /\ Example.bind false (ast.Call "map" args) Example.theBuilder
     = (Ok (BoundCall (ast.Call "map" args) TypeMap (map Some bargs)),
        Example.theBuilder).
Proof.
  intros args bargs.
  assert (H : BindsTo (Example.bind false) args Example.theBuilder
                bargs Example.theBuilder).
  { apply BindsTo_cons with (b1 := Example.theBuilder); [reflexivity|].
    apply BindsTo_cons with (b1 := Example.theBuilder); [reflexivity|].
    apply BindsTo_nil. }
  split; [exact H|].
  refine (proj1 (proj1 (bindCall_map_arity
                   Example.ext
                   false _ _ _ _ H) _)).
  reflexivity.
Defined.

Lemma bindConditional_type_witness :
  let n := ast.Conditional Example.yes (Example.str "a") (Example.num 1) in
  Example.bind false n Example.theBuilder
  = (Ok (BoundConditional n TypeUnknown (Some Example.boundYes)
           (Some (Example.boundStr "a")) (Some (Example.boundNum 1))),
     Example.theBuilder).
Proof.
  intros n.
  destruct (bindConditional_type
              Example.ext
              false Example.yes (Example.str "a") (Example.num 1)
              Example.theBuilder _ Example.theBuilder _ Example.theBuilder
              _ Example.theBuilder eq_refl eq_refl eq_refl)
    as [ty [Hbind [_ [_ Hne]]]].
  rewrite <- (Hne ltac:(intros H; vm_compute in H; discriminate H)). exact Hbind.
Defined.

Lemma bindOutput_projection_witness :
  Example.bind false (ast.Output [Example.str "a"]) Example.theBuilder
  = (Ok (Example.boundStr "a"), Example.theBuilder).
Proof.
  assert (H : BindsTo (Example.bind false) [Example.str "a"] Example.theBuilder
                [Example.boundStr "a"] Example.theBuilder).
  { apply BindsTo_cons with (b1 := Example.theBuilder); [reflexivity|].
    apply BindsTo_nil. }
  destruct (proj1 (bindOutput_projection
                     Example.ext
                     false _ _ _ _ H) eq_refl)
    as [e [He Hbind]].
  injection He as <-. exact Hbind.
Defined.

Lemma bindVariableAccess_count_witness :
  Example.bind true Example.countIndex Example.theBuilder
  = (Ok (BoundVariableAccess Example.countIndex [] Schemas_zero TypeNumber
           (config.Count {| config.cv_Type := config.CountValueIndex;
                            config.cv_key := "count.index" |}) None),
     Example.theBuilder)
  /\ Example.bind false Example.countIndex Example.theBuilder
     = (Err (Errorf "no count index in scope" []), Example.theBuilder).
Proof.
  destruct (proj1 (bindVariableAccess_count
                     Example.ext
                     "count.index" _ Example.theBuilder eq_refl) eq_refl)
    as [Hout [Hin _]].
  split; [exact Hin | exact Hout].
Defined.

Lemma bindVariableAccess_user_witness :
  exists e,
    Example.bind false Example.varReplicas Example.theBuilder
    = (Ok e, Example.theBuilder)
    /\ Example.typeOf e = TypeUnknown.
Proof.
  destruct (bindVariableAccess_user
              Example.ext
              false "var.replicas" _
              {| DefaultValue := Some (Example.boundNum 3) |}
              Example.theBuilder
              eq_refl eq_refl ltac:(vm_compute; reflexivity))
    as [e [Hbind [_ [_ Hother]]]].
  exists e. split; [exact Hbind|].
  apply (Hother (Example.boundNum 3) eq_refl). discriminate.
Defined.


(** * Properties of the visitor *)

Section VisitorFacts.

Variable St : Type.
Variables pre post : BoundNodeVisitor St.

(** *** Slices without their nil entries *)

Lemma countNils_dropNils {A : Type} (ns : list (option A)) :
  (countNils ns + length (dropNils ns))%nat = length ns.
Proof.
  unfold countNils, dropNils.
  induction ns as [|[a|] ns IH]; simpl; lia.
Qed.

Lemma dropNils_no_nils {A : Type} (ns : list (option A)) :
  countNils ns = 0%nat -> dropNils ns = ns.
Proof.
  unfold countNils, dropNils.
  induction ns as [|[a|] ns IH]; simpl; intros H.
  - reflexivity.
  - f_equal. exact (IH H).
  - discriminate.
Qed.

Lemma dropNils_all_nils {A : Type} (ns : list (option A)) :
  countNils ns = length ns -> dropNils ns = [].
Proof.
  intros H. pose proof (countNils_dropNils ns) as Hsum.
  destruct (dropNils ns); [reflexivity | simpl in Hsum; lia].
Qed.

Lemma dropNils_empty_iff {A : Type} (ns : list (option A)) :
  Nat.eqb (length (dropNils ns)) 0 = forallb isNil ns.
Proof.
  unfold dropNils. induction ns as [|[a|] ns IH]; simpl; auto.
Qed.

(** The survivors are the entries that are not nil, in their order. *)
Lemma dropNils_sublist {A : Type} (ns : list (option A)) :
  sublist (dropNils ns) ns
  /\ (forall e, e ∈ dropNils ns <-> e ∈ ns /\ isNil e = false).
Proof.
  unfold dropNils. split.
  - induction ns as [|[a|] ns IH]; simpl.
    + constructor.
    + constructor. exact IH.
    + constructor. exact IH.
  - intros e. rewrite !list_elem_of_In, filter_In.
    destruct (isNil e); simpl; intuition congruence.
Qed.

(** *** The loops over a slice *)

Lemma visitEach_VisitsTo {A B : Type} (visitOne : A -> V St B)
    (loop : list A -> V St (list B)) :
  loop [] = vret [] ->
  (forall e es, loop (e :: es)
                = vbind (visitOne e) (fun ee =>
                    vbind (loop es) (fun rest => vret (ee :: rest)))) ->
  forall ns s rs s',
    loop ns s = Some (Ok rs, s') <-> VisitsTo visitOne ns s rs s'.
Proof.
  intros Hnil Hcons ns.
  induction ns as [|e es IH]; intros s rs s'.
  - rewrite Hnil. unfold vret. split; intros H.
    + inversion H; subst. constructor.
    + inversion H; subst. reflexivity.
  - rewrite Hcons. unfold vbind at 1. split.
    + destruct (visitOne e s) as [[[r|err|p] s1]|] eqn:E1; try discriminate.
      unfold vbind.
      destruct (loop es s1) as [[[rest|err|p] s2]|] eqn:E2; try discriminate.
      unfold vret. intros H. inversion H; subst.
      econstructor; [exact E1 | apply IH; exact E2].
    + intros H. inversion H as [|? ? ? ? s1 ? ? He Hes]; subst.
      rewrite He. unfold vbind. apply IH in Hes. rewrite Hes. reflexivity.
Qed.

Section Loops.

Variable recur : option BoundNode -> V St (option BoundNode).

Lemma visitEachExpr_VisitsTo ns s rs s' :
  visitEachExpr recur ns s = Some (Ok rs, s')
  <-> VisitsTo (VisitBoundExpr recur) ns s rs s'.
Proof. apply visitEach_VisitsTo; reflexivity. Qed.

Lemma visitEachNode_VisitsTo ns s rs s' :
  visitEachNode recur ns s = Some (Ok rs, s')
  <-> VisitsTo recur ns s rs s'.
Proof. apply visitEach_VisitsTo; reflexivity. Qed.

(** Whichever of its three exits [visitBoundExprs] takes, the slice it
    returns holds the results that are not nil. *)
Lemma visitBoundExprs_survivors ns s rs s' :
  VisitsTo (VisitBoundExpr recur) ns s rs s' ->
  visitBoundExprs recur ns s = Some (Ok (dropNils rs), s').
Proof.
  intros H. apply visitEachExpr_VisitsTo in H.
  unfold visitBoundExprs, vbind. rewrite H.
  destruct (Nat.eqb (countNils rs) 0) eqn:E0.
  - apply Nat.eqb_eq in E0. rewrite (dropNils_no_nils _ E0). reflexivity.
  - destruct (Nat.eqb (countNils rs) (length rs)) eqn:E1.
    + apply Nat.eqb_eq in E1. rewrite (dropNils_all_nils _ E1). reflexivity.
    + reflexivity.
Qed.

Lemma visitBoundNodes_survivors ns s rs s' :
  VisitsTo recur ns s rs s' ->
  visitBoundNodes recur ns s = Some (Ok (dropNils rs), s').
Proof.
  intros H. apply visitEachNode_VisitsTo in H.
  unfold visitBoundNodes, vbind. rewrite H.
  destruct (Nat.eqb (countNils rs) 0) eqn:E0.
  - apply Nat.eqb_eq in E0. rewrite (dropNils_no_nils _ E0). reflexivity.
  - destruct (Nat.eqb (countNils rs) (length rs)) eqn:E1.
    + apply Nat.eqb_eq in E1. rewrite (dropNils_all_nils _ E1). reflexivity.
    + reflexivity.
Qed.

End Loops.

Lemma VisitsTo_length {A B : Type} (visitOne : A -> V St B) ns s rs s' :
  VisitsTo visitOne ns s rs s' -> length rs = length ns.
Proof. induction 1; simpl; congruence. Qed.

(** *** The bound on the depth *)

(** A traversal that ends within a bound ends within every larger one, with
    the same result. *)
Ltac same_continuation :=
  let a := fresh "a" in
  let s := fresh "s" in
  let r := fresh "r" in
  let H := fresh "H" in
  intros a s r H; exact H.

Lemma vbind_extends {A B : Type} (m m' : V St A) (k k' : A -> V St B) s r :
  (forall r0, m s = Some r0 -> m' s = Some r0) ->
  extends k k' ->
  vbind m k s = Some r -> vbind m' k' s = Some r.
Proof.
  intros Hm Hk. unfold vbind.
  destruct (m s) as [[[a|e|p] s1]|] eqn:E; try discriminate;
    rewrite (Hm _ eq_refl); auto.
Qed.

Section Extends.

Variables recur recur' : option BoundNode -> V St (option BoundNode).
Hypothesis Hrecur : extends recur recur'.

Lemma VisitBoundExpr_extends :
  extends (VisitBoundExpr recur) (VisitBoundExpr recur').
Proof.
  intros n s r. unfold VisitBoundExpr.
  apply vbind_extends; [apply Hrecur | same_continuation].
Qed.

Lemma visitEachExpr_extends :
  extends (visitEachExpr recur) (visitEachExpr recur').
Proof.
  intros ns. induction ns as [|e es IH]; intros s r; simpl; [auto|].
  apply vbind_extends; [apply VisitBoundExpr_extends|].
  intros ee s1 r1. apply vbind_extends; [apply IH | same_continuation].
Qed.

Lemma visitEachNode_extends :
  extends (visitEachNode recur) (visitEachNode recur').
Proof.
  intros ns. induction ns as [|e es IH]; intros s r; simpl; [auto|].
  apply vbind_extends; [apply Hrecur|].
  intros ee s1 r1. apply vbind_extends; [apply IH | same_continuation].
Qed.

Lemma visitEntries_extends :
  extends (visitEntries recur) (visitEntries recur').
Proof.
  intros es. induction es as [|[k e] es IH]; intros s r; simpl; [auto|].
  apply vbind_extends; [apply Hrecur|].
  intros ee s1 r1. apply vbind_extends; [apply IH | same_continuation].
Qed.

Lemma visitBoundExprs_extends :
  extends (visitBoundExprs recur) (visitBoundExprs recur').
Proof.
  intros ns s r. unfold visitBoundExprs.
  apply vbind_extends; [apply visitEachExpr_extends | same_continuation].
Qed.

Lemma visitBoundNodes_extends :
  extends (visitBoundNodes recur) (visitBoundNodes recur').
Proof.
  intros ns s r. unfold visitBoundNodes.
  apply vbind_extends; [apply visitEachNode_extends | same_continuation].
Qed.

End Extends.

Lemma VisitBoundNode_depth_succ :
  forall depth, extends (VisitBoundNode pre post depth)
                        (VisitBoundNode pre post (S depth)).
Proof.
  induction depth as [|depth IH]; intros n s r; [discriminate|].
  remember (S depth) as d eqn:Hd.
  rewrite Hd at 1. cbn [VisitBoundNode].
  apply vbind_extends; [auto|].
  intros [[[h es|h t es|h t c tr fl|h t tg k|t v|h es|h el sc t tf il]|es|es]|] s1 r1;
    try (intros H; exact H).
  - unfold visitBoundArithmetic. apply vbind_extends; [|same_continuation].
    apply visitBoundExprs_extends. subst d. exact IH.
  - unfold visitBoundCall. apply vbind_extends; [|same_continuation].
    apply visitBoundExprs_extends. subst d. exact IH.
  - unfold visitBoundConditional. subst d.
    apply vbind_extends; [apply VisitBoundExpr_extends; exact IH|]. intros a1 s2 r2.
    apply vbind_extends; [apply VisitBoundExpr_extends; exact IH|]. intros a2 s3 r3.
    apply vbind_extends; [apply VisitBoundExpr_extends; exact IH|].
    same_continuation.
  - unfold visitBoundIndex. subst d.
    apply vbind_extends; [apply VisitBoundExpr_extends; exact IH|]. intros a1 s2 r2.
    apply vbind_extends; [apply VisitBoundExpr_extends; exact IH|].
    same_continuation.
  - unfold visitBoundOutput. apply vbind_extends; [|same_continuation].
    apply visitBoundExprs_extends. subst d. exact IH.
  - unfold visitBoundListProperty. apply vbind_extends; [|same_continuation].
    apply visitBoundNodes_extends. subst d. exact IH.
  - unfold visitBoundMapProperty. apply vbind_extends; [|same_continuation].
    apply visitEntries_extends. subst d. exact IH.
Qed.

Lemma VisitBoundNode_depth_le :
  forall depth depth', (depth <= depth')%nat ->
    extends (VisitBoundNode pre post depth) (VisitBoundNode pre post depth').
Proof.
  intros depth depth' Hle. induction Hle as [|d' Hle IH].
  - intros n s r H. exact H.
  - intros n s r H. apply VisitBoundNode_depth_succ, IH, H.
Qed.

(** *** Termination *)

(** With a pre visitor that keeps the node it is given, as [IdentityVisitor]
    does, the traversal of a tree ends within the height of the tree. *)
Lemma vbind_returns {A B : Type} (m : V St A) (k : A -> V St B) s :
  (exists r, m s = Some r) ->
  (forall a s', exists r, k a s' = Some r) ->
  exists r, vbind m k s = Some r.
Proof.
  intros [[[a|e|p] s1] Hm] Hk; unfold vbind; rewrite Hm; eauto.
Qed.

Lemma exprHeight_pos (e : BoundExpr) : (1 <= exprHeight e)%nat.
Proof. destruct e; simpl; lia. Qed.

Lemma nodeHeight_pos (n : BoundNode) : (1 <= nodeHeight n)%nat.
Proof. destruct n; simpl; [apply exprHeight_pos | lia | lia]. Qed.

Lemma children_below {A : Type} (height : A -> nat) (l : list A) (d : nat) :
  (S (list_max (map height l)) <= S d)%nat ->
  Forall (fun a => (height a <= d)%nat) l.
Proof.
  intros H. apply le_S_n in H. apply list_max_le in H.
  apply List.Forall_map in H. exact H.
Qed.

Section Returns.

Variable recur : option BoundNode -> V St (option BoundNode).
Variable d : nat.
Hypothesis Hrecur :
  forall n, (nodeHeightOpt n <= d)%nat -> forall s, exists r, recur n s = Some r.

Lemma VisitBoundExpr_returns e :
  (exprHeightOpt e <= d)%nat -> forall s, exists r, VisitBoundExpr recur e s = Some r.
Proof.
  intros He s. unfold VisitBoundExpr. apply vbind_returns.
  - apply Hrecur. destruct e; exact He.
  - intros [[e'|es|es]|] s'; eexists; reflexivity.
Qed.

Lemma visitEachExpr_returns es :
  Forall (fun e => (exprHeightOpt e <= d)%nat) es ->
  forall s, exists r, visitEachExpr recur es s = Some r.
Proof.
  induction 1 as [|e es He Hes IH]; intros s; simpl.
  - eexists; reflexivity.
  - apply vbind_returns; [apply VisitBoundExpr_returns, He|].
    intros ee s1. apply vbind_returns; [apply IH|].
    intros rest s2. eexists; reflexivity.
Qed.

Lemma visitEachNode_returns ns :
  Forall (fun n => (nodeHeightOpt n <= d)%nat) ns ->
  forall s, exists r, visitEachNode recur ns s = Some r.
Proof.
  induction 1 as [|n ns Hn Hns IH]; intros s; simpl.
  - eexists; reflexivity.
  - apply vbind_returns; [apply Hrecur, Hn|].
    intros ee s1. apply vbind_returns; [apply IH|].
    intros rest s2. eexists; reflexivity.
Qed.

Lemma visitEntries_returns (es : list (string * option BoundNode)) :
  Forall (fun entry => (nodeHeightOpt (snd entry) <= d)%nat) es ->
  forall s, exists r, visitEntries recur es s = Some r.
Proof.
  induction 1 as [|[k e] es He Hes IH]; intros s; simpl.
  - eexists; reflexivity.
  - apply vbind_returns; [apply Hrecur, He|].
    intros ee s1. apply vbind_returns; [apply IH|].
    intros rest s2. destruct (isNil ee); eexists; reflexivity.
Qed.

Lemma visitBoundExprs_returns es :
  Forall (fun e => (exprHeightOpt e <= d)%nat) es ->
  forall s, exists r, visitBoundExprs recur es s = Some r.
Proof.
  intros Hes s. unfold visitBoundExprs.
  apply vbind_returns; [apply visitEachExpr_returns, Hes|].
  intros rs s1.
  destruct (Nat.eqb _ _); [|destruct (Nat.eqb _ _)]; eexists; reflexivity.
Qed.

Lemma visitBoundNodes_returns ns :
  Forall (fun n => (nodeHeightOpt n <= d)%nat) ns ->
  forall s, exists r, visitBoundNodes recur ns s = Some r.
Proof.
  intros Hns s. unfold visitBoundNodes.
  apply vbind_returns; [apply visitEachNode_returns, Hns|].
  intros rs s1.
  destruct (Nat.eqb _ _); [|destruct (Nat.eqb _ _)]; eexists; reflexivity.
Qed.

End Returns.

(** X22. A traversal whose pre visitor keeps the node it is given ends, on
    every tree, within as many nested calls as the tree is high: it returns
    a result, a node, nil, an error or a panic. *)
Lemma VisitBoundNode_returns :
  (forall n s, exists s', pre n s = (Ok n, s')) ->
  forall depth n,
    (nodeHeightOpt n <= depth)%nat ->
    forall s, exists r, VisitBoundNode pre post depth n s = Some r.
Proof.
  intros Hpre. induction depth as [|depth IH]; intros n Hn s.
  - destruct n as [n|]; simpl in Hn; [pose proof (nodeHeight_pos n)|]; lia.
  - cbn [VisitBoundNode]. unfold vbind at 1, visit at 1.
    destruct (Hpre n s) as [s1 Hs1]. rewrite Hs1.
    destruct n as [[[h es|h t es|h t c tr fl|h t tg k|t v|h es|h el sc t tf il]|es|es]|];
      try (eexists; reflexivity).
    + unfold visitBoundArithmetic. apply vbind_returns.
      * apply (visitBoundExprs_returns _ depth IH).
        apply (children_below exprHeightOpt). exact Hn.
      * intros rs s2. destruct (Nat.eqb _ _); eexists; reflexivity.
    + unfold visitBoundCall. apply vbind_returns.
      * apply (visitBoundExprs_returns _ depth IH).
        apply (children_below exprHeightOpt). exact Hn.
      * intros rs s2. eexists; reflexivity.
    + unfold visitBoundConditional. simpl in Hn.
      apply vbind_returns;
        [apply (VisitBoundExpr_returns _ depth IH); unfold exprHeightOpt; lia|].
      intros a1 s2. apply vbind_returns;
        [apply (VisitBoundExpr_returns _ depth IH); unfold exprHeightOpt; lia|].
      intros a2 s3. apply vbind_returns;
        [apply (VisitBoundExpr_returns _ depth IH); unfold exprHeightOpt; lia|].
      intros a3 s4. eexists; reflexivity.
    + unfold visitBoundIndex. simpl in Hn.
      apply vbind_returns;
        [apply (VisitBoundExpr_returns _ depth IH); unfold exprHeightOpt; lia|].
      intros a1 s2. apply vbind_returns;
        [apply (VisitBoundExpr_returns _ depth IH); unfold exprHeightOpt; lia|].
      intros a2 s3. eexists; reflexivity.
    + unfold visitBoundOutput. apply vbind_returns.
      * apply (visitBoundExprs_returns _ depth IH).
        apply (children_below exprHeightOpt). exact Hn.
      * intros rs s2. destruct (Nat.eqb _ _); eexists; reflexivity.
    + unfold visitBoundListProperty. apply vbind_returns.
      * apply (visitBoundNodes_returns _ depth IH).
        apply (children_below nodeHeightOpt). exact Hn.
      * intros rs s2. destruct (Nat.eqb _ _); eexists; reflexivity.
    + unfold visitBoundMapProperty. apply vbind_returns.
      * apply (visitEntries_returns _ depth IH).
        apply (children_below (fun entry : string * option BoundNode =>
                                 nodeHeightOpt (snd entry))).
        exact Hn.
      * intros rs s2. eexists; reflexivity.
Qed.

(** *** Deletion *)

(** C2. The node the pre visitor answers with is an Arithmetic, an Output, a
    ListProperty or a Call, and its children, visited one after the other,
    give [rs].  For the first three: when every result is nil the traversal
    answers nil in the state the last child left, so post is not called on
    the node; otherwise it answers what post makes of the node with the
    results that are not nil, in their order.  For a Call: post is called on
    the call with the results that are not nil, also when there are none. *)
Theorem visit_children_deleted :
  forall depth,
    let walk := VisitBoundNode pre post in
    let visitExpr := VisitBoundExpr (walk depth) in
    (forall h cs n s s1 rs s2,
        pre n s = (Ok (Some (ExprNode (BoundArithmetic h cs))), s1) ->
        VisitsTo visitExpr cs s1 rs s2 ->
        walk (S depth) n s
        = if forallb isNil rs then Some (Ok None, s2)
          else Some (post (Some (ExprNode (BoundArithmetic h (dropNils rs)))) s2))
    /\ (forall h cs n s s1 rs s2,
        pre n s = (Ok (Some (ExprNode (BoundOutput h cs))), s1) ->
        VisitsTo visitExpr cs s1 rs s2 ->
        walk (S depth) n s
        = if forallb isNil rs then Some (Ok None, s2)
          else Some (post (Some (ExprNode (BoundOutput h (dropNils rs)))) s2))
    /\ (forall cs n s s1 rs s2,
        pre n s = (Ok (Some (BoundListProperty cs)), s1) ->
        VisitsTo (walk depth) cs s1 rs s2 ->
        walk (S depth) n s
        = if forallb isNil rs then Some (Ok None, s2)
          else Some (post (Some (BoundListProperty (dropNils rs))) s2))
    /\ (forall h t cs n s s1 rs s2,
        pre n s = (Ok (Some (ExprNode (BoundCall h t cs))), s1) ->
        VisitsTo visitExpr cs s1 rs s2 ->
        walk (S depth) n s
        = Some (post (Some (ExprNode (BoundCall h t (dropNils rs)))) s2)).
Proof.
  intros depth walk visitExpr. subst walk visitExpr.
  repeat split.
  - intros h cs n s s1 rs s2 Hpre Hcs.
    apply visitBoundExprs_survivors in Hcs.
    cbn [VisitBoundNode]. unfold vbind at 1, visit at 1. rewrite Hpre.
    unfold visitBoundArithmetic, vbind. rewrite Hcs.
    rewrite dropNils_empty_iff. destruct (forallb isNil rs); reflexivity.
  - intros h cs n s s1 rs s2 Hpre Hcs.
    apply visitBoundExprs_survivors in Hcs.
    cbn [VisitBoundNode]. unfold vbind at 1, visit at 1. rewrite Hpre.
    unfold visitBoundOutput, vbind. rewrite Hcs.
    rewrite dropNils_empty_iff. destruct (forallb isNil rs); reflexivity.
  - intros cs n s s1 rs s2 Hpre Hcs.
    apply visitBoundNodes_survivors in Hcs.
    cbn [VisitBoundNode]. unfold vbind at 1, visit at 1. rewrite Hpre.
    unfold visitBoundListProperty, vbind. rewrite Hcs.
    rewrite dropNils_empty_iff. destruct (forallb isNil rs); reflexivity.
  - intros h t cs n s s1 rs s2 Hpre Hcs.
    apply visitBoundExprs_survivors in Hcs.
    cbn [VisitBoundNode]. unfold vbind at 1, visit at 1. rewrite Hpre.
    unfold visitBoundCall, vbind. rewrite Hcs. reflexivity.
Qed.

(** C3. When the pre visitor answers nil for a node, the traversal does not
    answer nil: it reaches the default case of the type switch and panics
    with a contract failure, in the state the pre visitor left. *)
Theorem visit_pre_absent_fails :
  forall depth n s s',
    pre n s = (Ok None, s') ->
    VisitBoundNode pre post (S depth) n s
    = Some (Panic (ContractFailure
                     "unexpected node type in visitBoundExpr: %T"), s').
Proof.
  intros depth n s s' Hpre.
  cbn [VisitBoundNode]. unfold vbind, visit. rewrite Hpre. reflexivity.
Qed.

(** C10. When the traversal of an expression node answers a node that is
    not an expression, the expression-typed entry point panics on its type
    assertion; it returns no error. *)
Theorem VisitBoundExpr_cast_fails :
  forall depth (e : BoundExpr) s nn s',
    VisitBoundNode pre post depth (asNode (Some e)) s = Some (Ok (Some nn), s') ->
    isBoundExpr nn = false ->
    VisitBoundExpr (VisitBoundNode pre post depth) (Some e) s
    = Some (Panic (TypeAssertionFailed "BoundExpr"), s').
Proof.
  intros depth e s nn s' Hwalk Hnn.
  unfold VisitBoundExpr, vbind. rewrite Hwalk.
  destruct nn; [discriminate | reflexivity | reflexivity].
Qed.

End VisitorFacts.

(** *** The traversal on the example trees *)

Import VisitExample.

(** Deleting the three operands of a sum deletes the sum, and post has seen
    the operands only; deleting one of the three leaves the other two. *)
Lemma visit_children_deleted_witness :
  VisitBoundNode IdentityVisitor deleteLiterals 2
    (Some (ExprNode (sum [Some (lit 1); Some (lit 2); Some (lit 3)]))) []
  = Some (Ok None,
          [Some (ExprNode (lit 3)); Some (ExprNode (lit 2)); Some (ExprNode (lit 1))])
  /\ VisitBoundNode IdentityVisitor deleteTwo 2
       (Some (ExprNode (sum [Some (lit 1); Some (lit 2); Some (lit 3)]))) []
     = Some (Ok (Some (ExprNode (sum [Some (lit 1); Some (lit 3)]))),
             [Some (ExprNode (sum [Some (lit 1); Some (lit 3)]));
              Some (ExprNode (lit 3)); Some (ExprNode (lit 2));
              Some (ExprNode (lit 1))]).
Proof.
  split.
  - refine (proj1 (visit_children_deleted Log IdentityVisitor deleteLiterals 1)
              sumNode [Some (lit 1); Some (lit 2); Some (lit 3)] _ [] []
              [None; None; None] _ eq_refl _).
    eapply VisitsTo_cons; [reflexivity|].
    eapply VisitsTo_cons; [reflexivity|].
    eapply VisitsTo_cons; [reflexivity|].
    apply VisitsTo_nil.
  - refine (proj1 (visit_children_deleted Log IdentityVisitor deleteTwo 1)
              sumNode [Some (lit 1); Some (lit 2); Some (lit 3)] _ [] []
              [Some (lit 1); None; Some (lit 3)] _ eq_refl _).
    eapply VisitsTo_cons; [reflexivity|].
    eapply VisitsTo_cons; [reflexivity|].
    eapply VisitsTo_cons; [reflexivity|].
    apply VisitsTo_nil.
Defined.

(** Deleting the only argument of a call does not delete the call: post is
    called on the call without arguments, and the call is the result. *)
Lemma visit_call_arguments_deleted_keeps_call :
  VisitBoundNode IdentityVisitor deleteLiterals 2
    (Some (ExprNode (listCall [Some (lit 1)]))) []
  = Some (Ok (Some (ExprNode (listCall []))),
          [Some (ExprNode (listCall [])); Some (ExprNode (lit 1))])
  /\ ~ (exists depth log,
         VisitBoundNode IdentityVisitor deleteLiterals depth
           (Some (ExprNode (listCall [Some (lit 1)]))) []
         = Some (Ok None, log)).
Proof.
  split; [reflexivity|].
  intros [depth [log H]].
  destruct depth as [|[|depth]]; vm_compute in H; discriminate H.
Qed.

Lemma visit_pre_absent_fails_witness :
  VisitBoundNode deleteEverything IdentityVisitor 1 (Some (ExprNode (lit 1))) []
  = Some (Panic (ContractFailure "unexpected node type in visitBoundExpr: %T"), []).
Proof.
  apply (visit_pre_absent_fails Log deleteEverything IdentityVisitor 0
           (Some (ExprNode (lit 1))) [] []).
  reflexivity.
Defined.

(** A pre visitor that answers nil does not delete the node, however deep
    the traversal may go. *)
Lemma visit_pre_absent_does_not_delete :
  ~ (exists depth log,
       VisitBoundNode deleteEverything IdentityVisitor depth
         (Some (ExprNode (lit 1))) []
       = Some (Ok None, log)).
Proof.
  intros [depth [log H]].
  destruct depth as [|depth]; vm_compute in H; discriminate H.
Qed.

Lemma VisitBoundExpr_cast_fails_witness :
  VisitBoundExpr (VisitBoundNode IdentityVisitor replaceByMap 1) (Some (lit 1)) []
  = Some (Panic (TypeAssertionFailed "BoundExpr"), [Some (ExprNode (lit 1))]).
Proof.
  apply (VisitBoundExpr_cast_fails Log IdentityVisitor replaceByMap 1 (lit 1) []
           (BoundMapProperty []) [Some (ExprNode (lit 1))]);
    reflexivity.
Defined.

(** * Further properties of the binder *)

Section BinderMore.

Variable ext : Externals.

(** *** Slices of expressions *)

Lemma bindExprs_failure (bindOne : ast.Node -> M BoundExpr) done n rest :
  forall b bs b1 e b2,
    BindsTo bindOne done b bs b1 ->
    bindOne n b1 = (Err e, b2) ->
    bindExprs bindOne (done ++ n :: rest)%list b = (Err e, b2).
Proof.
  induction done as [|d done IH]; intros b bs b1 e b2 Hdone Hn.
  - inversion Hdone; subst. simpl. unfold bind. rewrite Hn. reflexivity.
  - inversion Hdone as [|? ? ? bd bmid bs' ? Hd Hrest]; subst.
    simpl. unfold bind at 1. rewrite Hd.
    unfold bind at 1. rewrite (IH _ _ _ _ _ Hrest Hn). reflexivity.
Qed.

(** X1. The elements of a slice are bound from left to right and the first
    failure ends the binding: an Arithmetic, a Call (whatever the function
    name) and an Output fail with the error of the first operand that does
    not bind, in the builder that operand left; the operands after it are
    not bound. *)
Theorem bindExprs_first_failure_aborts :
  forall hasCountIndex done n rest b bs b1 e b2,
    BindsTo (bindExpr ext hasCountIndex) done b bs b1 ->
    bindExpr ext hasCountIndex n b1 = (Err e, b2) ->
    let ns := (done ++ n :: rest)%list in
    (forall op, bindExpr ext hasCountIndex (ast.Arithmetic op ns) b = (Err e, b2))
    /\ (forall f, bindExpr ext hasCountIndex (ast.Call f ns) b = (Err e, b2))
    /\ bindExpr ext hasCountIndex (ast.Output ns) b = (Err e, b2).
Proof.
  intros hc done n rest b bs b1 e b2 Hdone Hn ns.
  pose proof (bindExprs_failure (bindExpr ext hc) done n rest _ _ _ _ _ Hdone Hn)
    as Hfail.
  fold ns in Hfail.
  repeat split; intros; cbn [bindExpr];
    unfold bindArithmetic, bindCall, bindOutput, bind; rewrite Hfail; reflexivity.
Qed.

(** *** Outputs *)

Lemma bindExpr_Output_single hasCountIndex n b :
  bindExpr ext hasCountIndex (ast.Output [n]) b = bindExpr ext hasCountIndex n b.
Proof.
  change (bindExpr ext hasCountIndex (ast.Output [n]) b)
    with (bindOutput (bindExpr ext hasCountIndex) (ast.Output [n]) [n] b).
  unfold bindOutput. cbn [bindExprs]. unfold bind, ret.
  destruct (bindExpr ext hasCountIndex n b) as [[e|err|p] b']; reflexivity.
Qed.

(** X2. An output around a single sub-expression is transparent, however
    deeply it is nested: it binds to what the sub-expression binds to, fails
    where it fails, and leaves the same builder. *)
Theorem bindOutput_nested_single :
  forall hasCountIndex k n b,
    bindExpr ext hasCountIndex (wrapOutput k n) b = bindExpr ext hasCountIndex n b.
Proof.
  intros hc k n b. induction k as [|k IH].
  - reflexivity.
  - change (wrapOutput (S k) n) with (ast.Output [wrapOutput k n]).
    rewrite bindExpr_Output_single. exact IH.
Qed.

(** *** Calls *)

Ltac split_on_name f :=
  repeat match goal with
  | H : context [String.eqb f ?name] |- _ =>
      let E := fresh "E" in
      destruct (String.eqb f name) eqn:E;
      [apply String.eqb_eq in E | apply String.eqb_neq in E]
  | |- context [String.eqb f ?name] =>
      let E := fresh "E" in
      destruct (String.eqb f name) eqn:E;
      [apply String.eqb_eq in E | apply String.eqb_neq in E]
  end.

(** X3. A call that binds was a call to one of the ten listed functions, and
    it binds to a Call node that holds the bound arguments, all of them and
    in their order; a call to [map] then has an even number of arguments and
    a call to [element] has at least one.  A call to any other function
    never binds. *)
Theorem bindCall_success_inversion :
  forall hasCountIndex f args b e b',
    bindExpr ext hasCountIndex (ast.Call f args) b = (Ok e, b') ->
    In f supportedCalls
    /\ (exists ty bargs,
          e = BoundCall (ast.Call f args) ty (map Some bargs)
          /\ BindsTo (bindExpr ext hasCountIndex) args b bargs b')
    /\ (f = "map" -> Nat.even (length args) = true)
    /\ (f = "element" -> args <> []).
Proof.
  intros hc f args b e b' H.
  cbn [bindExpr] in H. unfold bindCall, bind in H.
  destruct (bindExprs (bindExpr ext hc) args b) as [[bargs|err|p] b1] eqn:Hargs;
    try discriminate.
  apply bindExprs_BindsTo in Hargs.
  pose proof (BindsTo_length _ _ _ _ _ Hargs) as Hlen.
  assert (Hshape : forall ty,
             ret (BoundCall (ast.Call f args) ty (map Some bargs)) b1 = (Ok e, b') ->
             exists ty0 bargs0,
               e = BoundCall (ast.Call f args) ty0 (map Some bargs0)
               /\ BindsTo (bindExpr ext hc) args b bargs0 b').
  { intros ty Hret. unfold ret in Hret. injection Hret as <- <-. eauto. }
  split_on_name f; subst;
    try (split; [simpl; tauto|]; split;
         [eapply Hshape; eassumption | split; intros Hf; discriminate Hf]).
  - (* element *)
    split; [simpl; tauto|].
    destruct bargs as [|arg0 bargs]; [discriminate H|].
    split.
    + destruct (IsList _); eapply Hshape; eassumption.
    + split; [intros Hf; discriminate Hf|].
      intros _ ->. discriminate Hlen.
  - (* map *)
    split; [simpl; tauto|].
    destruct (negb (Z.of_nat (length bargs) mod 2 =? 0)) eqn:Hpar;
      [discriminate H|].
    split; [eapply Hshape; eassumption|].
    split; [|intros Hf; discriminate Hf].
    intros _. apply negb_false_iff in Hpar.
    rewrite <- Zeven_mod, Z_even_of_nat, Hlen in Hpar. exact Hpar.
  - discriminate H.
Qed.

(** X4. The arguments of a call are not counted, except for [map] and
    [element]: when the arguments bind, however many there are, a call to
    [base64decode], [base64encode], [chomp], [file] or [format] binds to a
    call of type String, a call to [list] to one of type list of Unknown, a
    call to [split] to one of type list of String and a call to [lookup] to
    one of type Unknown. *)
Theorem bindCall_types_without_arity :
  forall hasCountIndex f args b bargs b',
    BindsTo (bindExpr ext hasCountIndex) args b bargs b' ->
    let n := ast.Call f args in
    let bound ty := (Ok (BoundCall n ty (map Some bargs)), b') in
    (In f ["base64decode"; "base64encode"; "chomp"; "file"; "format"] ->
     bindExpr ext hasCountIndex n b = bound TypeString)
    /\ (f = "list" -> bindExpr ext hasCountIndex n b = bound (ListOf TypeUnknown))
    /\ (f = "split" -> bindExpr ext hasCountIndex n b = bound (ListOf TypeString))
    /\ (f = "lookup" -> bindExpr ext hasCountIndex n b = bound TypeUnknown).
Proof.
  intros hc f args b bargs b' Hargs n bound.
  apply bindExprs_BindsTo in Hargs.
  assert (Hcall : forall g,
             bindExpr ext hc (ast.Call g args) b
             = bindCall ext (bindExpr ext hc) (ast.Call g args) g args b)
    by reflexivity.
  subst n bound. cbv beta.
  repeat split.
  - intros Hin. simpl in Hin.
    destruct Hin as [<-|[<-|[<-|[<-|[<-|[]]]]]];
      rewrite Hcall; unfold bindCall, bind; rewrite Hargs; reflexivity.
  - intros ->. rewrite Hcall. unfold bindCall, bind. rewrite Hargs. reflexivity.
  - intros ->. rewrite Hcall. unfold bindCall, bind. rewrite Hargs. reflexivity.
  - intros ->. rewrite Hcall. unfold bindCall, bind. rewrite Hargs. reflexivity.
Qed.

(** *** Variable accesses *)

Lemma bindExpr_VariableAccess hasCountIndex name b :
  bindExpr ext hasCountIndex (ast.VariableAccess name) b
  = bindVariableAccess ext hasCountIndex (ast.VariableAccess name) name b.
Proof. reflexivity. Qed.

(** X5. A variable access binds only when its name parses to a count, local,
    module, resource or user variable: a count variable of sub-kind index
    with a count index in scope, a local, a module or a user variable (not
    element-qualified) found in the table of the builder, a resource found
    in its table for which [ensureProvider] reports no error.  The node it
    binds to records the access and the parsed variable; every kind but the
    resource leaves the builder as it was. *)
Theorem bindVariableAccess_success_inversion :
  forall hasCountIndex name b e b',
    bindExpr ext hasCountIndex (ast.VariableAccess name) b = (Ok e, b') ->
    exists tfVar elements sch ty ilNode,
      NewInterpolatedVariable ext name = Ok tfVar
      /\ e = BoundVariableAccess (ast.VariableAccess name) elements sch ty
               tfVar ilNode
      /\ match tfVar with
         | config.Count v =>
             config.cv_Type v = config.CountValueIndex
             /\ hasCountIndex = true /\ ilNode = None /\ b' = b
         | config.Local_ v =>
             is_Some (locals b !! config.lv_Name v)
             /\ ilNode = Some (LocalRef (config.lv_Name v)) /\ b' = b
         | config.Module_ v =>
             is_Some (modules b !! config.mv_Name v)
             /\ ilNode = Some (ModuleRef (config.mv_Name v)) /\ b' = b
         | config.Resource v =>
             (exists r r',
                 resources b !! config.rv_ResourceId v = Some r
                 /\ ensureProvider ext r b = (None, r', b'))
             /\ ilNode = Some (ResourceRef (config.rv_ResourceId v))
         | config.User v =>
             config.uv_Elem v = ""
             /\ is_Some (variables b !! config.uv_Name v)
             /\ ilNode = Some (VariableRef (config.uv_Name v)) /\ b' = b
         | _ => False
         end.
Proof.
  intros hc name b e b' H.
  rewrite bindExpr_VariableAccess in H.
  unfold bindVariableAccess, bind, callNewInterpolatedVariable in H.
  destruct (NewInterpolatedVariable ext name) as [tfVar|err|p] eqn:Hparse;
    try discriminate.
  exists tfVar.
  destruct tfVar as [v|v|v| |v| | | |v| ]; try discriminate H.
  - destruct (config.cv_Type v) eqn:Hty; [discriminate H|].
    destruct hc; [|discriminate H].
    unfold ret in H. injection H as <- <-. repeat eexists.
  - unfold getBuilder in H.
    destruct (locals b !! config.lv_Name v) as [l|] eqn:Hl; [|discriminate H].
    unfold ret in H. injection H as <- <-. repeat eexists.
  - unfold getBuilder in H.
    destruct (modules b !! config.mv_Name v) as [m|] eqn:Hm; [|discriminate H].
    unfold ret in H. injection H as <- <-. repeat eexists.
  - unfold getBuilder in H.
    destruct (resources b !! config.rv_ResourceId v) as [r|] eqn:Hr;
      [|discriminate H].
    unfold callEnsureProvider in H.
    destruct (ensureProvider ext r b) as [[[err|] r'] b1] eqn:Hp;
      [discriminate H|].
    unfold ret in H. injection H as <- <-. repeat eexists. exact Hp.
  - destruct (String.eqb (config.uv_Elem v) "") eqn:Helem; [|discriminate H].
    apply String.eqb_eq in Helem. unfold getBuilder in H. cbn [negb] in H.
    destruct (variables b !! config.uv_Name v) as [vn|] eqn:Hv; [|discriminate H].
    unfold ret in H. injection H as <- <-. repeat eexists. exact Helem.
Qed.

(** X6. A name that is not in the table it is looked up in: a local, a
    module, a resource or a user variable that the builder does not know
    fails with the error that names it, and the builder is left as it was;
    for a resource, [ensureProvider] is not reached.  When the resource is
    known and [ensureProvider] fails, the access fails with that error in
    the builder [ensureProvider] left. *)
Theorem bindVariableAccess_unknown_reference :
  forall hasCountIndex name b,
    let n := ast.VariableAccess name in
    (forall v, NewInterpolatedVariable ext name = Ok (config.Local_ v) ->
               locals b !! config.lv_Name v = None ->
               bindExpr ext hasCountIndex n b
               = (Err (Errorf "unknown local %v" [ArgString (config.lv_Name v)]), b))
    /\ (forall v, NewInterpolatedVariable ext name = Ok (config.Module_ v) ->
               modules b !! config.mv_Name v = None ->
               bindExpr ext hasCountIndex n b
               = (Err (Errorf "unknown module %v" [ArgString (config.mv_Name v)]), b))
    /\ (forall v, NewInterpolatedVariable ext name = Ok (config.Resource v) ->
               resources b !! config.rv_ResourceId v = None ->
               bindExpr ext hasCountIndex n b
               = (Err (Errorf "unknown resource %v"
                         [ArgString (config.rv_ResourceId v)]), b))
    /\ (forall v, NewInterpolatedVariable ext name = Ok (config.User v) ->
               config.uv_Elem v = "" ->
               variables b !! config.uv_Name v = None ->
               bindExpr ext hasCountIndex n b
               = (Err (Errorf "unknown variable %s" [ArgString (config.uv_Name v)]), b))
    /\ (forall v r err r' b',
            NewInterpolatedVariable ext name = Ok (config.Resource v) ->
            resources b !! config.rv_ResourceId v = Some r ->
            ensureProvider ext r b = (Some err, r', b') ->
            bindExpr ext hasCountIndex n b = (Err err, b')).
Proof.
  intros hc name b n. subst n.
  repeat split; intros v.
  - intros Hparse Hnone. rewrite bindExpr_VariableAccess.
    unfold bindVariableAccess, bind, callNewInterpolatedVariable, getBuilder.
    rewrite Hparse, Hnone. reflexivity.
  - intros Hparse Hnone. rewrite bindExpr_VariableAccess.
    unfold bindVariableAccess, bind, callNewInterpolatedVariable, getBuilder.
    rewrite Hparse, Hnone. reflexivity.
  - intros Hparse Hnone. rewrite bindExpr_VariableAccess.
    unfold bindVariableAccess, bind, callNewInterpolatedVariable, getBuilder.
    rewrite Hparse, Hnone. reflexivity.
  - intros Hparse Helem Hnone. rewrite bindExpr_VariableAccess.
    unfold bindVariableAccess, bind, callNewInterpolatedVariable, getBuilder.
    rewrite Hparse, Helem. cbn [String.eqb negb]. rewrite Hnone. reflexivity.
  - intros r err r' b' Hparse Hsome Hprov. rewrite bindExpr_VariableAccess.
    unfold bindVariableAccess, bind, callNewInterpolatedVariable, getBuilder,
      callEnsureProvider.
    rewrite Hparse, Hsome, Hprov. reflexivity.
Qed.

(** *** Resource accesses *)

Lemma strings_Split_nonempty s sep : strings_Split s sep <> [].
Proof.
  destruct s as [|c s]; simpl; [discriminate|].
  destruct (Ascii.eqb c sep); [discriminate|].
  destruct (strings_Split s sep); discriminate.
Qed.

Lemma strings_Join_Split s sep :
  strings_Join (strings_Split s sep) (String sep EmptyString) = s.
Proof.
  induction s as [|c s IH]; [reflexivity|].
  cbn [strings_Split].
  destruct (Ascii.eqb c sep) eqn:Hc.
  - apply Ascii.eqb_eq in Hc. subst c.
    pose proof (strings_Split_nonempty s sep) as Hne.
    cbn [strings_Join].
    destruct (strings_Split s sep) as [|h t] eqn:Hs; [congruence|].
    rewrite IH. reflexivity.
  - destruct (strings_Split s sep) as [|h t] eqn:Hs.
    + exfalso. exact (strings_Split_nonempty s sep Hs).
    + cbn [strings_Join] in IH |- *.
      destruct t as [|h' t']; [rewrite IH; reflexivity|].
      rewrite <- IH. reflexivity.
Qed.

Lemma strings_Split_no_separator s sep :
  Forall (fun e => ~ In sep (list_ascii_of_string e)) (strings_Split s sep).
Proof.
  induction s as [|c s IH]; cbn [strings_Split].
  - constructor; [simpl; tauto | constructor].
  - destruct (Ascii.eqb c sep) eqn:Hc.
    + constructor; [simpl; tauto | exact IH].
    + apply Ascii.eqb_neq in Hc.
      destruct (strings_Split s sep) as [|h t].
      * constructor; [simpl; intuition congruence | constructor].
      * inversion IH as [|? ? Hh Ht]; subst.
        constructor; [simpl; intuition congruence | exact Ht].
Qed.

Lemma bindVariableAccess_resource_node hasCountIndex name v r r' b b' :
  NewInterpolatedVariable ext name = Ok (config.Resource v) ->
  resources b !! config.rv_ResourceId v = Some r ->
  ensureProvider ext r b = (None, r', b') ->
  let elements := strings_Split (config.rv_Field v) "." in
  let sch := ResourceNode_Schemas r' in
  bindExpr ext hasCountIndex (ast.VariableAccess name) b
  = (Ok (BoundVariableAccess (ast.VariableAccess name) elements sch
           (resourceAccessType v
              (Schemas_Type (fold_left PropertySchemas elements sch)))
           (config.Resource v)
           (Some (ResourceRef (config.rv_ResourceId v)))),
     b').
Proof.
  intros Hparse Hres Hprov elements sch. rewrite bindExpr_VariableAccess.
  unfold bindVariableAccess, bind, callNewInterpolatedVariable, getBuilder,
    callEnsureProvider.
  rewrite Hparse, Hres, Hprov. reflexivity.
Qed.

(** X7. The node a resource access binds to holds the path of the accessed
    field: the elements are not empty, none of them contains a dot, and
    joined by dots they give the field back.  It also holds the schema of
    the resource as [ensureProvider] left it and points to the resource. *)
Theorem bindVariableAccess_resource_elements :
  forall hasCountIndex name v r r' b b',
    NewInterpolatedVariable ext name = Ok (config.Resource v) ->
    resources b !! config.rv_ResourceId v = Some r ->
    ensureProvider ext r b = (None, r', b') ->
    exists elements ty,
      bindExpr ext hasCountIndex (ast.VariableAccess name) b
      = (Ok (BoundVariableAccess (ast.VariableAccess name) elements
               (ResourceNode_Schemas r') ty (config.Resource v)
               (Some (ResourceRef (config.rv_ResourceId v)))),
         b')
      /\ elements <> []
      /\ strings_Join elements "." = config.rv_Field v
      /\ Forall (fun e => ~ In "."%char (list_ascii_of_string e)) elements.
Proof.
  intros hc name v r r' b b' Hparse Hres Hprov.
  eexists. eexists. split.
  - apply (bindVariableAccess_resource_node hc name v r r' b b' Hparse Hres Hprov).
  - split; [apply strings_Split_nonempty|].
    split; [apply strings_Join_Split | apply strings_Split_no_separator].
Qed.

(** The two wrappers commute and each is idempotent; the element type of a
    list is the type without its list wrapper. *)
Lemma ListOf_OutputOf (t : Type_) : ListOf (OutputOf t) = OutputOf (ListOf t).
Proof. reflexivity. Qed.

Lemma ListOf_ListOf (t : Type_) : ListOf (ListOf t) = ListOf t.
Proof. reflexivity. Qed.

Lemma OutputOf_OutputOf (t : Type_) : OutputOf (OutputOf t) = OutputOf t.
Proof. reflexivity. Qed.

Lemma ElementType_ListOf (t : Type_) :
  IsList t = false -> ElementType (ListOf t) = t.
Proof. destruct t as [p l o]. simpl. intros ->. reflexivity. Qed.

(** X8. A resource access is of a list type exactly when the reference is
    multi without index (a splat) or the leaf is itself of a list type; a
    multi reference with an index, like a reference that is not multi, has
    the type [OutputOf T] of the leaf. *)
Theorem bindVariableAccess_resource_list_type :
  forall hasCountIndex name v r r' b b' T,
    NewInterpolatedVariable ext name = Ok (config.Resource v) ->
    resources b !! config.rv_ResourceId v = Some r ->
    ensureProvider ext r b = (None, r', b') ->
    Schemas_Type
      (fold_left PropertySchemas (strings_Split (config.rv_Field v) ".")
         (ResourceNode_Schemas r')) = T ->
    exists e,
      bindExpr ext hasCountIndex (ast.VariableAccess name) b = (Ok e, b')
      /\ IsList (BoundExpr_Type ext e)
         = config.rv_Multi v && (config.rv_Index v =? -1) || IsList T
      /\ (config.rv_Multi v = true -> config.rv_Index v <> -1 ->
          BoundExpr_Type ext e = OutputOf T).
Proof.
  intros hc name v r r' b b' T Hparse Hres Hprov HT.
  eexists. split.
  - apply (bindVariableAccess_resource_node hc name v r r' b b' Hparse Hres Hprov).
  - cbn [BoundExpr_Type]. rewrite HT. unfold resourceAccessType. split.
    + destruct (config.rv_Multi v && (config.rv_Index v =? -1)); reflexivity.
    + intros -> Hidx. apply Z.eqb_neq in Hidx. rewrite Hidx. reflexivity.
Qed.



(** *** Induction on the syntax tree *)

Lemma ast_Node_nested_ind (P : ast.Node -> Prop) :
  (forall op exprs, Forall P exprs -> P (ast.Arithmetic op exprs)) ->
  (forall f args, Forall P args -> P (ast.Call f args)) ->
  (forall c t f, P c -> P t -> P f -> P (ast.Conditional c t f)) ->
  (forall target key, P target -> P key -> P (ast.Index target key)) ->
  (forall v ty, P (ast.LiteralNode v ty)) ->
  (forall exprs, Forall P exprs -> P (ast.Output exprs)) ->
  (forall name, P (ast.VariableAccess name)) ->
  P ast.Other ->
  forall n, P n.
Proof.
  intros HA HC HCond HI HL HO HV HOther.
  fix IH 1. intros [op es|f es|c t f|target key|v ty|es|name|].
  - apply HA. induction es as [|e es IHes]; constructor; [apply IH | exact IHes].
  - apply HC. induction es as [|e es IHes]; constructor; [apply IH | exact IHes].
  - apply HCond; apply IH.
  - apply HI; apply IH.
  - apply HL.
  - apply HO. induction es as [|e es IHes]; constructor; [apply IH | exact IHes].
  - apply HV.
  - apply HOther.
Qed.

(** *** The builder *)

Lemma keeps_bind (I : builder -> Prop) {A B : Type} (m : M A) (k : A -> M B) :
  keeps I m -> (forall a, keeps I (k a)) -> keeps I (bind m k).
Proof.
  intros Hm Hk b Hb. unfold bind.
  specialize (Hm b Hb).
  destruct (m b) as [[a|e|p] b1]; simpl in *; [apply Hk; exact Hm | exact Hm | exact Hm].
Qed.

Lemma keeps_bindExprs (I : builder -> Prop) (bindOne : ast.Node -> M BoundExpr) ns :
  Forall (fun n => keeps I (bindOne n)) ns -> keeps I (bindExprs bindOne ns).
Proof.
  induction 1 as [|n ns Hn Hns IH]; simpl.
  - intros b Hb. exact Hb.
  - apply keeps_bind; [exact Hn|]. intros bn.
    apply keeps_bind; [exact IH|]. intros bs b Hb. exact Hb.
Qed.

(** X10. The binder changes the builder through [ensureProvider] only: a
    property of the builder that every call of [ensureProvider] on a
    resource of the builder keeps is kept by the binding of any expression,
    whether the binding succeeds, fails or panics. *)
Theorem bindExpr_keeps_builder_invariant :
  forall (I : builder -> Prop),
    (forall b id r,
        I b -> resources b !! id = Some r -> I (snd (ensureProvider ext r b))) ->
    forall hasCountIndex n b,
      I b -> I (snd (bindExpr ext hasCountIndex n b)).
Proof.
  intros I Hprov hc n.
  change (keeps I (bindExpr ext hc n)).
  induction n as [op es IH|f es IH|c t f IHc IHt IHf|target key IHt IHk|v ty
                 |es IH|name|] using ast_Node_nested_ind.
  - cbn [bindExpr]. unfold bindArithmetic.
    apply keeps_bind; [apply keeps_bindExprs, IH|]. intros a b Hb. exact Hb.
  - cbn [bindExpr]. unfold bindCall.
    apply keeps_bind; [apply keeps_bindExprs, IH|]. intros args b Hb.
    repeat match goal with
           | |- context [if ?c then _ else _] => destruct c
           | |- context [match ?l with [] => _ | _ :: _ => _ end] => destruct l
           end; exact Hb.
  - cbn [bindExpr]. unfold bindConditional.
    apply keeps_bind; [exact IHc|]. intros bc.
    apply keeps_bind; [exact IHt|]. intros bt.
    apply keeps_bind; [exact IHf|]. intros bf b Hb. exact Hb.
  - cbn [bindExpr]. unfold bindIndex.
    apply keeps_bind; [exact IHt|]. intros bt.
    apply keeps_bind; [exact IHk|]. intros bk b Hb. exact Hb.
  - intros b Hb. cbn [bindExpr]. unfold bindLiteral. destruct ty; exact Hb.
  - cbn [bindExpr]. unfold bindOutput.
    apply keeps_bind; [apply keeps_bindExprs, IH|]. intros bs b Hb.
    destruct bs as [|e [|e' bs]]; exact Hb.
  - intros b Hb. rewrite bindExpr_VariableAccess.
    unfold bindVariableAccess, bind, callNewInterpolatedVariable, getBuilder,
      callEnsureProvider.
    destruct (NewInterpolatedVariable ext name) as [tfVar|err|p]; try exact Hb.
    destruct tfVar as [v|v|v| |v| | | |v| ]; try exact Hb.
    + destruct (config.cv_Type v); [exact Hb|]. destruct (negb hc); exact Hb.
    + destruct (locals b !! config.lv_Name v); exact Hb.
    + destruct (modules b !! config.mv_Name v); exact Hb.
    + destruct (resources b !! config.rv_ResourceId v) as [r|] eqn:Hr;
        [|exact Hb].
      pose proof (Hprov b _ r Hb Hr) as Hafter.
      destruct (ensureProvider ext r b) as [[[err|] r'] b1]; exact Hafter.
    + destruct (negb (String.eqb (config.uv_Elem v) "")); [exact Hb|].
      destruct (variables b !! config.uv_Name v); exact Hb.
  - intros b Hb. exact Hb.
Qed.

(** *** The shape of bound trees *)

Lemma BindsTo_Forall (bindOne : ast.Node -> M BoundExpr) (Q : BoundExpr -> Prop) ns :
  Forall (fun n => forall b e b', bindOne n b = (Ok e, b') -> Q e) ns ->
  forall b bs b', BindsTo bindOne ns b bs b' -> Forall Q bs.
Proof.
  induction 1 as [|n ns Hn Hns IH]; intros b bs b' Hbs;
    inversion Hbs as [|? ? ? bn b1 bs' ? Hbn Hrest]; subst; constructor.
  - eapply Hn; eassumption.
  - eapply IH; eassumption.
Qed.

Lemma forallb_complete_children bs :
  Forall (fun e => exprComplete e = true) bs ->
  forallb (fun o : option BoundExpr =>
             match o with
             | Some e' => exprComplete e'
             | None => false
             end) (map Some bs) = true.
Proof.
  induction 1 as [|e bs He Hbs IH]; simpl; [reflexivity|].
  rewrite He, IH. reflexivity.
Qed.

Ltac invert_binding H :=
  repeat match type of H with
         | context [match ?x with _ => _ end] =>
             let E := fresh "E" in destruct x eqn:E; try discriminate H
         end.

(** X11. The binder puts no nil interface into the tree it returns: every
    operand slot and every element of an operand slice of a bound
    expression, at any depth, holds a node. *)
Theorem bindExpr_result_complete :
  forall hasCountIndex n b e b',
    bindExpr ext hasCountIndex n b = (Ok e, b') -> exprComplete e = true.
Proof.
  intros hc n.
  induction n as [op es IH|f es IH|c t f IHc IHt IHf|target key IHt IHk|v ty
                 |es IH|name|] using ast_Node_nested_ind;
    intros b e b' H.
  - cbn [bindExpr] in H. unfold bindArithmetic, bind in H.
    destruct (bindExprs (bindExpr ext hc) es b) as [[bs|err|p] b1] eqn:Hes;
      try discriminate H.
    unfold ret in H. injection H as <- <-.
    apply bindExprs_BindsTo in Hes.
    apply forallb_complete_children. eapply BindsTo_Forall; eassumption.
  - cbn [bindExpr] in H. unfold bindCall, bind in H.
    destruct (bindExprs (bindExpr ext hc) es b) as [[bs|err|p] b1] eqn:Hes;
      try discriminate H.
    apply bindExprs_BindsTo in Hes.
    assert (Hbs : exprComplete (BoundCall (ast.Call f es) TypeUnknown (map Some bs))
                  = true).
    { apply forallb_complete_children. eapply BindsTo_Forall; eassumption. }
    invert_binding H; unfold ret in H; injection H as <- <-; exact Hbs.
  - cbn [bindExpr] in H. unfold bindConditional, bind in H.
    destruct (bindExpr ext hc c b) as [[bc|err|p] b1] eqn:Hc; try discriminate H.
    destruct (bindExpr ext hc t b1) as [[bt|err|p] b2] eqn:Ht; try discriminate H.
    destruct (bindExpr ext hc f b2) as [[bf|err|p] b3] eqn:Hf; try discriminate H.
    unfold ret in H. injection H as <- <-. simpl.
    rewrite (IHc _ _ _ Hc), (IHt _ _ _ Ht), (IHf _ _ _ Hf). reflexivity.
  - cbn [bindExpr] in H. unfold bindIndex, bind in H.
    destruct (bindExpr ext hc target b) as [[bt|err|p] b1] eqn:Ht;
      try discriminate H.
    destruct (bindExpr ext hc key b1) as [[bk|err|p] b2] eqn:Hk;
      try discriminate H.
    unfold ret in H. injection H as <- <-. simpl.
    rewrite (IHt _ _ _ Ht), (IHk _ _ _ Hk). reflexivity.
  - cbn [bindExpr] in H. unfold bindLiteral in H.
    destruct ty; try discriminate H; unfold ret in H; injection H as <- <-;
      reflexivity.
  - cbn [bindExpr] in H. unfold bindOutput, bind in H.
    destruct (bindExprs (bindExpr ext hc) es b) as [[bs|err|p] b1] eqn:Hes;
      try discriminate H.
    apply bindExprs_BindsTo in Hes.
    assert (Hall : Forall (fun e0 => exprComplete e0 = true) bs)
      by (eapply BindsTo_Forall; eassumption).
    destruct bs as [|e0 [|e1 bs]]; unfold ret in H; injection H as <- <-.
    + reflexivity.
    + inversion Hall; assumption.
    + apply (forallb_complete_children (e0 :: e1 :: bs)). exact Hall.
  - rewrite bindExpr_VariableAccess in H.
    unfold bindVariableAccess, bind, callNewInterpolatedVariable, getBuilder,
      callEnsureProvider in H.
    invert_binding H; unfold ret in H; injection H as <- <-; reflexivity.
  - discriminate H.
Qed.

(** *** The count index *)

Lemma BindsTo_weaken (bindOne bindOne' : ast.Node -> M BoundExpr) ns :
  Forall (fun n => forall b e b',
              bindOne n b = (Ok e, b') -> bindOne' n b = (Ok e, b')) ns ->
  forall b bs b', BindsTo bindOne ns b bs b' -> BindsTo bindOne' ns b bs b'.
Proof.
  induction 1 as [|n ns Hn Hns IH]; intros b bs b' Hbs;
    inversion Hbs as [|? ? ? bn b1 bs' ? Hbn Hrest]; subst.
  - constructor.
  - econstructor; [apply Hn; exact Hbn | eapply IH; exact Hrest].
Qed.

(** X12. A count index in scope never hurts: an expression that binds
    without one binds with one to the same tree, and leaves the same
    builder. *)
Theorem bindExpr_count_index_monotone :
  forall n b e b',
    bindExpr ext false n b = (Ok e, b') -> bindExpr ext true n b = (Ok e, b').
Proof.
  intros n.
  induction n as [op es IH|f es IH|c t f IHc IHt IHf|target key IHt IHk|v ty
                 |es IH|name|] using ast_Node_nested_ind;
    intros b e b' H.
  - cbn [bindExpr] in H |- *. unfold bindArithmetic, bind in H |- *.
    destruct (bindExprs (bindExpr ext false) es b) as [[bs|err|p] b1] eqn:Hes;
      try discriminate H.
    apply bindExprs_BindsTo in Hes.
    apply (BindsTo_weaken _ (bindExpr ext true) _ IH) in Hes.
    apply bindExprs_BindsTo in Hes. rewrite Hes. exact H.
  - cbn [bindExpr] in H |- *. unfold bindCall, bind in H |- *.
    destruct (bindExprs (bindExpr ext false) es b) as [[bs|err|p] b1] eqn:Hes;
      try discriminate H.
    apply bindExprs_BindsTo in Hes.
    apply (BindsTo_weaken _ (bindExpr ext true) _ IH) in Hes.
    apply bindExprs_BindsTo in Hes. rewrite Hes. exact H.
  - cbn [bindExpr] in H |- *. unfold bindConditional, bind in H |- *.
    destruct (bindExpr ext false c b) as [[bc|err|p] b1] eqn:Hc;
      try discriminate H.
    destruct (bindExpr ext false t b1) as [[bt|err|p] b2] eqn:Ht;
      try discriminate H.
    destruct (bindExpr ext false f b2) as [[bf|err|p] b3] eqn:Hf;
      try discriminate H.
    rewrite (IHc _ _ _ Hc), (IHt _ _ _ Ht), (IHf _ _ _ Hf). exact H.
  - cbn [bindExpr] in H |- *. unfold bindIndex, bind in H |- *.
    destruct (bindExpr ext false target b) as [[bt|err|p] b1] eqn:Ht;
      try discriminate H.
    destruct (bindExpr ext false key b1) as [[bk|err|p] b2] eqn:Hk;
      try discriminate H.
    rewrite (IHt _ _ _ Ht), (IHk _ _ _ Hk). exact H.
  - exact H.
  - cbn [bindExpr] in H |- *. unfold bindOutput, bind in H |- *.
    destruct (bindExprs (bindExpr ext false) es b) as [[bs|err|p] b1] eqn:Hes;
      try discriminate H.
    apply bindExprs_BindsTo in Hes.
    apply (BindsTo_weaken _ (bindExpr ext true) _ IH) in Hes.
    apply bindExprs_BindsTo in Hes. rewrite Hes. exact H.
  - rewrite bindExpr_VariableAccess in H |- *.
    unfold bindVariableAccess, bind, callNewInterpolatedVariable in H |- *.
    destruct (NewInterpolatedVariable ext name) as [tfVar|err|p];
      try discriminate H.
    destruct tfVar as [v|v|v| |v| | | |v| ]; try exact H.
    destruct (config.cv_Type v); [exact H | discriminate H].
  - exact H.
Qed.

Lemma forallb_solid_children bs :
  Forall (fun e => exprSolid e = true) bs ->
  forallb (fun o : option BoundExpr =>
             match o with
             | Some e' => exprSolid e'
             | None => false
             end) (map Some bs) = true.
Proof.
  induction 1 as [|e bs He Hbs IH]; simpl; [reflexivity|].
  rewrite He, IH. reflexivity.
Qed.

Lemma BindsTo_Forall_proper (bindOne : ast.Node -> M BoundExpr)
    (Q : BoundExpr -> Prop) ns :
  Forall (fun n => astProper n = true ->
                   forall b e b', bindOne n b = (Ok e, b') -> Q e) ns ->
  forallb astProper ns = true ->
  forall b bs b', BindsTo bindOne ns b bs b' -> Forall Q bs.
Proof.
  induction 1 as [|n ns Hn Hns IH]; intros Hproper b bs b' Hbs;
    inversion Hbs as [|? ? ? bn b1 bs' ? Hbn Hrest]; subst; constructor;
    simpl in Hproper; apply andb_prop in Hproper; destruct Hproper as [Hp Hps].
  - eapply Hn; eassumption.
  - eapply IH; eassumption.
Qed.

Lemma BindsTo_nonEmpty (bindOne : ast.Node -> M BoundExpr) ns b bs b' :
  BindsTo bindOne ns b bs b' -> nonEmpty (map Some bs) = nonEmpty ns.
Proof. destruct 1; reflexivity. Qed.

(** X13. When no Arithmetic and no Output of the syntax tree is without
    operand, the tree the binder returns has no nil slot and no Arithmetic
    or Output without operand either. *)
Theorem bindExpr_result_solid :
  forall hasCountIndex n,
    astProper n = true ->
    forall b e b',
      bindExpr ext hasCountIndex n b = (Ok e, b') -> exprSolid e = true.
Proof.
  intros hc n.
  induction n as [op es IH|f es IH|c t f IHc IHt IHf|target key IHt IHk|v ty
                 |es IH|name|] using ast_Node_nested_ind;
    intros Hproper b e b' H.
  - simpl in Hproper. apply andb_prop in Hproper. destruct Hproper as [Hne Hall].
    cbn [bindExpr] in H. unfold bindArithmetic, bind in H.
    destruct (bindExprs (bindExpr ext hc) es b) as [[bs|err|p] b1] eqn:Hes;
      try discriminate H.
    unfold ret in H. injection H as <- <-.
    apply bindExprs_BindsTo in Hes. cbn [exprSolid].
    rewrite (BindsTo_nonEmpty _ _ _ _ _ Hes), Hne.
    apply forallb_solid_children. eapply BindsTo_Forall_proper; eassumption.
  - simpl in Hproper.
    cbn [bindExpr] in H. unfold bindCall, bind in H.
    destruct (bindExprs (bindExpr ext hc) es b) as [[bs|err|p] b1] eqn:Hes;
      try discriminate H.
    apply bindExprs_BindsTo in Hes.
    assert (Hbs : exprSolid (BoundCall (ast.Call f es) TypeUnknown (map Some bs))
                  = true).
    { apply forallb_solid_children. eapply BindsTo_Forall_proper; eassumption. }
    invert_binding H; unfold ret in H; injection H as <- <-; exact Hbs.
  - simpl in Hproper. apply andb_prop in Hproper. destruct Hproper as [Hct Hpf].
    apply andb_prop in Hct. destruct Hct as [Hpc Hpt].
    cbn [bindExpr] in H. unfold bindConditional, bind in H.
    destruct (bindExpr ext hc c b) as [[bc|err|p] b1] eqn:Hc; try discriminate H.
    destruct (bindExpr ext hc t b1) as [[bt|err|p] b2] eqn:Ht; try discriminate H.
    destruct (bindExpr ext hc f b2) as [[bf|err|p] b3] eqn:Hf; try discriminate H.
    unfold ret in H. injection H as <- <-. simpl.
    rewrite (IHc Hpc _ _ _ Hc), (IHt Hpt _ _ _ Ht), (IHf Hpf _ _ _ Hf).
    reflexivity.
  - simpl in Hproper. apply andb_prop in Hproper. destruct Hproper as [Hpt Hpk].
    cbn [bindExpr] in H. unfold bindIndex, bind in H.
    destruct (bindExpr ext hc target b) as [[bt|err|p] b1] eqn:Ht;
      try discriminate H.
    destruct (bindExpr ext hc key b1) as [[bk|err|p] b2] eqn:Hk;
      try discriminate H.
    unfold ret in H. injection H as <- <-. simpl.
    rewrite (IHt Hpt _ _ _ Ht), (IHk Hpk _ _ _ Hk). reflexivity.
  - cbn [bindExpr] in H. unfold bindLiteral in H.
    destruct ty; try discriminate H; unfold ret in H; injection H as <- <-;
      reflexivity.
  - simpl in Hproper. apply andb_prop in Hproper. destruct Hproper as [Hne Hall].
    cbn [bindExpr] in H. unfold bindOutput, bind in H.
    destruct (bindExprs (bindExpr ext hc) es b) as [[bs|err|p] b1] eqn:Hes;
      try discriminate H.
    apply bindExprs_BindsTo in Hes.
    assert (Hsolid : Forall (fun e0 => exprSolid e0 = true) bs)
      by (eapply BindsTo_Forall_proper; eassumption).
    pose proof (BindsTo_nonEmpty _ _ _ _ _ Hes) as Hnes. rewrite Hne in Hnes.
    destruct bs as [|e0 [|e1 bs]]; unfold ret in H; injection H as <- <-.
    + discriminate Hnes.
    + inversion Hsolid; assumption.
    + cbn [exprSolid map nonEmpty andb].
      apply (forallb_solid_children (e0 :: e1 :: bs)). exact Hsolid.
  - rewrite bindExpr_VariableAccess in H.
    unfold bindVariableAccess, bind, callNewInterpolatedVariable, getBuilder,
      callEnsureProvider in H.
    invert_binding H; unfold ret in H; injection H as <- <-; reflexivity.
  - discriminate H.
Qed.

(** *** Conditionals and index expressions *)

(** X14. The operands of a conditional are bound in the order condition,
    true branch, false branch, and those of an index expression in the
    order target, key: the node fails with the error of the first operand
    that does not bind, in the builder that operand left. *)
Theorem bindExpr_fixed_arity_first_failure :
  forall hasCountIndex b,
    let bound := bindExpr ext hasCountIndex in
    (forall c t f e b1,
        bound c b = (Err e, b1) ->
        bound (ast.Conditional c t f) b = (Err e, b1))
    /\ (forall c t f bc b1 e b2,
          bound c b = (Ok bc, b1) -> bound t b1 = (Err e, b2) ->
          bound (ast.Conditional c t f) b = (Err e, b2))
    /\ (forall c t f bc b1 bt b2 e b3,
          bound c b = (Ok bc, b1) -> bound t b1 = (Ok bt, b2) ->
          bound f b2 = (Err e, b3) ->
          bound (ast.Conditional c t f) b = (Err e, b3))
    /\ (forall target key e b1,
          bound target b = (Err e, b1) ->
          bound (ast.Index target key) b = (Err e, b1))
    /\ (forall target key bt b1 e b2,
          bound target b = (Ok bt, b1) -> bound key b1 = (Err e, b2) ->
          bound (ast.Index target key) b = (Err e, b2)).
Proof.
  intros hc b bound. subst bound.
  repeat split; intros; cbn [bindExpr]; unfold bindConditional, bindIndex, bind;
    repeat match goal with
           | H : bindExpr _ _ _ _ = _ |- _ => rewrite H; clear H
           end; reflexivity.
Qed.

End BinderMore.

(** *** The binder on the example configuration, continued *)

Lemma bindExprs_first_failure_aborts_witness :
  Example.bind false
    (ast.Call "nosuch" [Example.str "a"; MoreExamples.badName; Example.num 1])
    Example.theBuilder
  = (Err MoreExamples.badNameError, Example.theBuilder).
Proof.
  assert (H : BindsTo (Example.bind false) [Example.str "a"] Example.theBuilder
                [Example.boundStr "a"] Example.theBuilder).
  { apply BindsTo_cons with (b1 := Example.theBuilder); [reflexivity|].
    apply BindsTo_nil. }
  exact (proj1 (proj2 (bindExprs_first_failure_aborts Example.ext false
                         [Example.str "a"] MoreExamples.badName [Example.num 1]
                         Example.theBuilder _ _ MoreExamples.badNameError
                         Example.theBuilder H eq_refl)) "nosuch").
Defined.

Lemma bindCall_success_inversion_witness :
  In "map" supportedCalls
  /\ Nat.even (length [Example.str "a"; Example.num 1]) = true.
Proof.
  destruct (bindCall_success_inversion Example.ext false "map"
              [Example.str "a"; Example.num 1] Example.theBuilder
              (BoundCall (ast.Call "map" [Example.str "a"; Example.num 1]) TypeMap
                 [Some (Example.boundStr "a"); Some (Example.boundNum 1)])
              Example.theBuilder eq_refl)
    as [Hin [_ [Heven _]]].
  split; [exact Hin | exact (Heven eq_refl)].
Defined.

Lemma bindCall_types_without_arity_witness :
  Example.bind false (ast.Call "file" []) Example.theBuilder
  = (Ok (BoundCall (ast.Call "file" []) TypeString []), Example.theBuilder).
Proof.
  refine (proj1 (bindCall_types_without_arity Example.ext false "file" []
                   Example.theBuilder [] Example.theBuilder
                   (BindsTo_nil _ _)) _).
  simpl. tauto.
Defined.

Lemma bindVariableAccess_success_inversion_witness :
  exists tfVar,
    NewInterpolatedVariable Example.ext "count.index" = Ok tfVar.
Proof.
  destruct (bindVariableAccess_success_inversion Example.ext true "count.index"
              Example.theBuilder
              (BoundVariableAccess Example.countIndex [] Schemas_zero TypeNumber
                 (config.Count {| config.cv_Type := config.CountValueIndex;
                                  config.cv_key := "count.index" |}) None)
              Example.theBuilder eq_refl)
    as [tfVar [elements [sch [ty [ilNode [Hparse _]]]]]].
  exists tfVar. exact Hparse.
Defined.

Lemma bindVariableAccess_unknown_reference_witness :
  Example.bind false MoreExamples.varRegion MoreExamples.emptyBuilder
  = (Err (Errorf "unknown variable %s" [ArgString "region"]),
     MoreExamples.emptyBuilder).
Proof.
  exact (proj1 (proj2 (proj2 (proj2
           (bindVariableAccess_unknown_reference Example.ext false "var.region"
              MoreExamples.emptyBuilder))))
           {| config.uv_Name := "region"; config.uv_Elem := "" |}
           eq_refl eq_refl ltac:(vm_compute; reflexivity)).
Defined.

Lemma bindVariableAccess_resource_elements_witness :
  exists elements ty,
    Example.bind false Example.webSplatName Example.theBuilder
    = (Ok (BoundVariableAccess Example.webSplatName elements
             (ResourceNode_Schemas MoreExamples.webWithProvider) ty
             (config.Resource {| config.rv_ResourceId := "aws_instance.web";
                                 config.rv_Field := "name";
                                 config.rv_Multi := true;
                                 config.rv_Index := -1 |})
             (Some (ResourceRef "aws_instance.web"))),
       Example.theBuilder)
    /\ strings_Join elements "." = "name".
Proof.
  destruct (bindVariableAccess_resource_elements Example.ext false
              "aws_instance.web.*.name" _ Example.web MoreExamples.webWithProvider
              Example.theBuilder Example.theBuilder
              eq_refl ltac:(vm_compute; reflexivity) eq_refl)
    as [elements [ty [Hbind [_ [Hjoin _]]]]].
  exists elements, ty. split; [exact Hbind | exact Hjoin].
Defined.

Lemma bindVariableAccess_resource_list_type_witness :
  exists e,
    Example.bind false Example.webSplatName Example.theBuilder
    = (Ok e, Example.theBuilder)
    /\ IsList (Example.typeOf e) = true.
Proof.
  destruct (bindVariableAccess_resource_list_type Example.ext false
              "aws_instance.web.*.name" _ Example.web MoreExamples.webWithProvider
              Example.theBuilder Example.theBuilder TypeString
              eq_refl ltac:(vm_compute; reflexivity) eq_refl eq_refl)
    as [e [Hbind [Hlist _]]].
  exists e. split; [exact Hbind | exact Hlist].
Defined.


Lemma bindExpr_keeps_builder_invariant_witness :
  snd (Example.bind false Example.webName Example.theBuilder) = Example.theBuilder.
Proof.
  apply (bindExpr_keeps_builder_invariant Example.ext
           (fun b => b = Example.theBuilder)).
  - intros b id r Hb _. exact Hb.
  - reflexivity.
Defined.

Lemma bindExpr_result_complete_witness :
  exprComplete
    (BoundConditional
       (ast.Conditional Example.yes (Example.str "a") (Example.num 1))
       TypeUnknown (Some Example.boundYes) (Some (Example.boundStr "a"))
       (Some (Example.boundNum 1)))
  = true.
Proof.
  apply (bindExpr_result_complete Example.ext false
           (ast.Conditional Example.yes (Example.str "a") (Example.num 1))
           Example.theBuilder _ Example.theBuilder).
  reflexivity.
Defined.

Lemma bindExpr_count_index_monotone_witness :
  Example.bind true (ast.Output [Example.str "a"; Example.num 1]) Example.theBuilder
  = (Ok (BoundOutput (ast.Output [Example.str "a"; Example.num 1])
           [Some (Example.boundStr "a"); Some (Example.boundNum 1)]),
     Example.theBuilder).
Proof.
  apply (bindExpr_count_index_monotone Example.ext). reflexivity.
Defined.

Lemma bindExpr_result_solid_witness :
  exprSolid
    (BoundOutput (ast.Output [Example.str "a"; Example.num 1])
       [Some (Example.boundStr "a"); Some (Example.boundNum 1)])
  = true.
Proof.
  apply (bindExpr_result_solid Example.ext false
           (ast.Output [Example.str "a"; Example.num 1]) eq_refl
           Example.theBuilder _ Example.theBuilder).
  reflexivity.
Defined.

Lemma bindExpr_fixed_arity_first_failure_witness :
  Example.bind false
    (ast.Conditional Example.yes MoreExamples.badName (Example.num 1))
    Example.theBuilder
  = (Err MoreExamples.badNameError, Example.theBuilder).
Proof.
  exact (proj1 (proj2 (bindExpr_fixed_arity_first_failure Example.ext false
                         Example.theBuilder))
           Example.yes MoreExamples.badName (Example.num 1)
           Example.boundYes Example.theBuilder MoreExamples.badNameError
           Example.theBuilder eq_refl eq_refl).
Defined.

(** * Further properties of the visitor *)

Section VisitorMore.

Variable St : Type.
Variables pre post : BoundNodeVisitor St.

Ltac invert_visit H :=
  repeat match type of H with
         | context [match ?x with _ => _ end] =>
             let E := fresh "E" in destruct x eqn:E; try discriminate H
         end.

(** *** What a traversal returns *)

(** X15. A node that a traversal returns is a node the post visitor
    returned: the traversal hands back the result of a call of post, in the
    state that call left, and never a node of its own making. *)
Theorem VisitBoundNode_result_from_post :
  forall depth n s nn s',
    VisitBoundNode pre post depth n s = Some (Ok (Some nn), s') ->
    exists m s0, post (Some m) s0 = (Ok (Some nn), s').
Proof.
  intros depth n s nn s' H.
  destruct depth as [|depth]; [discriminate H|].
  cbn [VisitBoundNode] in H. unfold vbind at 1, visit at 1 in H.
  destruct (pre n s) as [[n0|e|p] s1]; try discriminate H.
  destruct n0 as [[[h es|h t es|h t c tr fl|h t tg k|t v|h es|h el sc t tf il]
                  |es|es]|];
    unfold visitBoundArithmetic, visitBoundCall, visitBoundConditional,
      visitBoundIndex, visitBoundListProperty, visitBoundMapProperty,
      visitBoundOutput, vbind, vret, vcrash in H;
    invert_visit H; try discriminate H;
    unfold visit in H; injection H as H; eauto.
Qed.

(** *** Errors *)

Lemma visitEach_failure {A B : Type} (visitOne : A -> V St B)
    (loop : list A -> V St (list B)) :
  (forall e es, loop (e :: es)
                = vbind (visitOne e) (fun ee =>
                    vbind (loop es) (fun rest => vret (ee :: rest)))) ->
  forall done c rest s rs s1 e s2,
    VisitsTo visitOne done s rs s1 ->
    visitOne c s1 = Some (Err e, s2) ->
    loop (done ++ c :: rest)%list s = Some (Err e, s2).
Proof.
  intros Hcons done c rest.
  induction done as [|d done IH]; intros s rs s1 e s2 Hdone Hc.
  - inversion Hdone; subst. simpl. rewrite Hcons. unfold vbind.
    rewrite Hc. reflexivity.
  - inversion Hdone as [|? ? ? r smid rs' ? Hd Hrest]; subst.
    simpl. rewrite Hcons. unfold vbind at 1. rewrite Hd.
    unfold vbind at 1. rewrite (IH _ _ _ _ _ Hrest Hc). reflexivity.
Qed.

(** X16. An error in a child ends the traversal of its parent: when the
    children before it have been visited and the visit of a child of an
    Arithmetic, a Call, an Output or a ListProperty returns an error, the
    traversal of the node returns that error in the state the child left;
    the children after it are not visited and post is not called on the
    node. *)
Theorem visit_child_error_aborts :
  forall depth,
    let walk := VisitBoundNode pre post in
    let visitExpr := VisitBoundExpr (walk depth) in
    (forall h done c rest n s s0 rs s1 e s2,
        pre n s = (Ok (Some (ExprNode (BoundArithmetic h (done ++ c :: rest)))), s0) ->
        VisitsTo visitExpr done s0 rs s1 ->
        visitExpr c s1 = Some (Err e, s2) ->
        walk (S depth) n s = Some (Err e, s2))
    /\ (forall h t done c rest n s s0 rs s1 e s2,
          pre n s = (Ok (Some (ExprNode (BoundCall h t (done ++ c :: rest)))), s0) ->
          VisitsTo visitExpr done s0 rs s1 ->
          visitExpr c s1 = Some (Err e, s2) ->
          walk (S depth) n s = Some (Err e, s2))
    /\ (forall h done c rest n s s0 rs s1 e s2,
          pre n s = (Ok (Some (ExprNode (BoundOutput h (done ++ c :: rest)))), s0) ->
          VisitsTo visitExpr done s0 rs s1 ->
          visitExpr c s1 = Some (Err e, s2) ->
          walk (S depth) n s = Some (Err e, s2))
    /\ (forall done c rest n s s0 rs s1 e s2,
          pre n s = (Ok (Some (BoundListProperty (done ++ c :: rest))), s0) ->
          VisitsTo (walk depth) done s0 rs s1 ->
          walk depth c s1 = Some (Err e, s2) ->
          walk (S depth) n s = Some (Err e, s2)).
Proof.
  intros depth walk visitExpr. subst walk visitExpr.
  repeat split.
  - intros h done c rest n s s0 rs s1 e s2 Hpre Hdone Hc.
    pose proof (visitEach_failure _ (visitEachExpr (VisitBoundNode pre post depth))
                  ltac:(reflexivity) done c rest _ _ _ _ _ Hdone Hc) as Hloop.
    cbn [VisitBoundNode]. unfold vbind at 1, visit at 1. rewrite Hpre.
    unfold visitBoundArithmetic, visitBoundExprs, vbind. rewrite Hloop. reflexivity.
  - intros h t done c rest n s s0 rs s1 e s2 Hpre Hdone Hc.
    pose proof (visitEach_failure _ (visitEachExpr (VisitBoundNode pre post depth))
                  ltac:(reflexivity) done c rest _ _ _ _ _ Hdone Hc) as Hloop.
    cbn [VisitBoundNode]. unfold vbind at 1, visit at 1. rewrite Hpre.
    unfold visitBoundCall, visitBoundExprs, vbind. rewrite Hloop. reflexivity.
  - intros h done c rest n s s0 rs s1 e s2 Hpre Hdone Hc.
    pose proof (visitEach_failure _ (visitEachExpr (VisitBoundNode pre post depth))
                  ltac:(reflexivity) done c rest _ _ _ _ _ Hdone Hc) as Hloop.
    cbn [VisitBoundNode]. unfold vbind at 1, visit at 1. rewrite Hpre.
    unfold visitBoundOutput, visitBoundExprs, vbind. rewrite Hloop. reflexivity.
  - intros done c rest n s s0 rs s1 e s2 Hpre Hdone Hc.
    pose proof (visitEach_failure _ (visitEachNode (VisitBoundNode pre post depth))
                  ltac:(reflexivity) done c rest _ _ _ _ _ Hdone Hc) as Hloop.
    cbn [VisitBoundNode]. unfold vbind at 1, visit at 1. rewrite Hpre.
    unfold visitBoundListProperty, visitBoundNodes, vbind. rewrite Hloop.
    reflexivity.
Qed.

(** *** Map properties *)

Lemma visitEntries_surviving (recur : option BoundNode -> V St (option BoundNode)) es :
  forall s rs s',
    VisitsTo recur (map snd es) s rs s' ->
    visitEntries recur es s = Some (Ok (survivingEntries (map fst es) rs), s').
Proof.
  induction es as [|[k e] es IH]; intros s rs s' H; simpl in H.
  - inversion H; subst. reflexivity.
  - inversion H as [|? ? ? r s1 rs' ? He Hes]; subst.
    cbn [visitEntries]. unfold vbind at 1. rewrite He.
    unfold vbind at 1. rewrite (IH _ _ _ Hes).
    unfold survivingEntries. cbn [map fst combine List.filter snd].
    destruct r; reflexivity.
Qed.

Lemma survivingEntries_keys keys rs :
  sublist (map fst (survivingEntries keys rs)) keys.
Proof.
  unfold survivingEntries. revert rs.
  induction keys as [|k keys IH]; intros rs; [constructor|].
  destruct rs as [|r rs]; simpl; [apply sublist_nil_l|].
  destruct (negb (isNil r)); simpl.
  - apply sublist_skip, IH.
  - apply sublist_cons, IH.
Qed.

Lemma survivingEntries_all_nil keys rs :
  forallb isNil rs = true -> survivingEntries keys rs = [].
Proof.
  unfold survivingEntries. revert rs.
  induction keys as [|k keys IH]; intros rs H; [reflexivity|].
  destruct rs as [|r rs]; [reflexivity|].
  simpl in H. apply andb_prop in H. destruct H as [Hr Hrs].
  simpl. rewrite Hr. simpl. apply IH, Hrs.
Qed.

(** X17. The values of a MapProperty are visited one after the other; an
    entry whose value is deleted is removed, the others keep their key and
    their order and get the result of the visit.  Post is then called on
    the map property, also when every entry was removed: unlike a list
    property, a map property is not deleted with its last entry. *)
Theorem visit_map_property_entries :
  forall depth n s es s1 rs s2,
    pre n s = (Ok (Some (BoundMapProperty es)), s1) ->
    VisitsTo (VisitBoundNode pre post depth) (map snd es) s1 rs s2 ->
    let left := survivingEntries (map fst es) rs in
    VisitBoundNode pre post (S depth) n s
    = Some (post (Some (BoundMapProperty left)) s2)
    /\ sublist (map fst left) (map fst es)
    /\ (forallb isNil rs = true -> left = []).
Proof.
  intros depth n s es s1 rs s2 Hpre Hes left. subst left.
  split; [|split].
  - cbn [VisitBoundNode]. unfold vbind at 1, visit at 1. rewrite Hpre.
    unfold visitBoundMapProperty, vbind.
    rewrite (visitEntries_surviving _ _ _ _ _ Hes). reflexivity.
  - apply survivingEntries_keys.
  - apply survivingEntries_all_nil.
Qed.

(** *** Conditionals and index expressions *)

(** X18. A Conditional and an Index are never deleted with their operands:
    post is called on the node with whatever the visits of the operands
    returned, nil included, in the slots of the operands, and with the type
    the node had before. *)
Theorem visit_fixed_arity_keeps_node :
  forall depth,
    let walk := VisitBoundNode pre post in
    let visitExpr := VisitBoundExpr (walk depth) in
    (forall h ty c t f n s s0 c' s1 t' s2 f' s3,
        pre n s = (Ok (Some (ExprNode (BoundConditional h ty c t f))), s0) ->
        visitExpr c s0 = Some (Ok c', s1) ->
        visitExpr t s1 = Some (Ok t', s2) ->
        visitExpr f s2 = Some (Ok f', s3) ->
        walk (S depth) n s
        = Some (post (Some (ExprNode (BoundConditional h ty c' t' f'))) s3))
    /\ (forall h ty target key n s s0 target' s1 key' s2,
          pre n s = (Ok (Some (ExprNode (BoundIndex h ty target key))), s0) ->
          visitExpr target s0 = Some (Ok target', s1) ->
          visitExpr key s1 = Some (Ok key', s2) ->
          walk (S depth) n s
          = Some (post (Some (ExprNode (BoundIndex h ty target' key'))) s2)).
Proof.
  intros depth walk visitExpr. subst walk visitExpr.
  split.
  - intros h ty c t f n s s0 c' s1 t' s2 f' s3 Hpre Hc Ht Hf.
    cbn [VisitBoundNode]. unfold vbind at 1, visit at 1. rewrite Hpre.
    unfold visitBoundConditional, vbind. rewrite Hc, Ht, Hf. reflexivity.
  - intros h ty target key n s s0 target' s1 key' s2 Hpre Ht Hk.
    cbn [VisitBoundNode]. unfold vbind at 1, visit at 1. rewrite Hpre.
    unfold visitBoundIndex, vbind. rewrite Ht, Hk. reflexivity.
Qed.

(** X19. A tree with a nil slot cannot be traversed again by a pre visitor
    that answers nil for nil, as [IdentityVisitor] does: the traversal of a
    Conditional whose condition is nil, or of an Index whose target is nil,
    panics with the contract failure when it reaches the slot, and post is
    not called. *)
Theorem visit_nil_slot_panics :
  forall depth s s0 s1,
    pre None s0 = (Ok None, s1) ->
    let failure :=
      Some (Panic (ContractFailure "unexpected node type in visitBoundExpr: %T")
              : res (option BoundNode), s1) in
    (forall h ty t f,
        let n := Some (ExprNode (BoundConditional h ty None t f)) in
        pre n s = (Ok n, s0) ->
        VisitBoundNode pre post (S (S depth)) n s = failure)
    /\ (forall h ty key,
          let n := Some (ExprNode (BoundIndex h ty None key)) in
          pre n s = (Ok n, s0) ->
          VisitBoundNode pre post (S (S depth)) n s = failure).
Proof.
  intros depth s s0 s1 Hnil failure. subst failure.
  split.
  - intros h ty t f n Hpre. subst n.
    cbn [VisitBoundNode]. unfold vbind at 1, visit at 1. rewrite Hpre.
    unfold visitBoundConditional, VisitBoundExpr, vbind, visit. cbn [asNode].
    rewrite Hnil. reflexivity.
  - intros h ty key n Hpre. subst n.
    cbn [VisitBoundNode]. unfold vbind at 1, visit at 1. rewrite Hpre.
    unfold visitBoundIndex, VisitBoundExpr, vbind, visit. cbn [asNode].
    rewrite Hnil. reflexivity.
Qed.

(** *** Visitors that keep what they are given to expressions *)

Lemma vbind_not_cast_failure {A B : Type} (m : V St A) (k : A -> V St B) s r s' :
  (forall r0 s0, m s = Some (r0, s0) -> notCastFailure r0) ->
  (forall a s0 r0 s1, k a s0 = Some (r0, s1) -> notCastFailure r0) ->
  vbind m k s = Some (r, s') -> notCastFailure r.
Proof.
  intros Hm Hk H. unfold vbind in H.
  destruct (m s) as [[[a|e|p] s0]|] eqn:E; try discriminate H.
  - eapply Hk; exact H.
  - injection H as <- <-. discriminate.
  - injection H as <- <-. specialize (Hm _ _ eq_refl).
    intros Heq. apply Hm. injection Heq as ->. reflexivity.
Qed.

Lemma vret_not_cast_failure {A : Type} (a : A) s r s' :
  vret (St := St) a s = Some (r, s') -> notCastFailure r.
Proof. unfold vret. intros H. injection H as <- <-. discriminate. Qed.

Section Safe.

Variable recur : option BoundNode -> V St (option BoundNode).
Hypothesis recur_safe :
  forall n s r s', recur n s = Some (r, s') -> notCastFailure r.
Hypothesis recur_typed :
  forall n s x s',
    exprOrNil n = true -> recur n s = Some (Ok x, s') -> exprOrNil x = true.

Lemma VisitBoundExpr_not_cast_failure e s r s' :
  VisitBoundExpr recur e s = Some (r, s') -> notCastFailure r.
Proof.
  unfold VisitBoundExpr, vbind. intros H.
  destruct (recur (asNode e) s) as [[[x|err|p] s0]|] eqn:E; try discriminate H.
  - assert (Hx : exprOrNil x = true).
    { eapply recur_typed; [|exact E]. destruct e; reflexivity. }
    destruct x as [[e'|es|es]|]; try discriminate Hx;
      eapply vret_not_cast_failure; exact H.
  - injection H as <- <-. discriminate.
  - injection H as <- <-. pose proof (recur_safe _ _ _ _ E) as Hp.
    intros Heq. apply Hp. injection Heq as ->. reflexivity.
Qed.

Lemma visitEachExpr_not_cast_failure es :
  forall s r s', visitEachExpr recur es s = Some (r, s') -> notCastFailure r.
Proof.
  induction es as [|e es IH]; intros s r s'; simpl.
  - apply vret_not_cast_failure.
  - apply vbind_not_cast_failure.
    + intros r0 s0. apply VisitBoundExpr_not_cast_failure.
    + intros ee s0 r0 s1. apply vbind_not_cast_failure.
      * intros r1 s2. apply IH.
      * intros rest s2 r1 s3. apply vret_not_cast_failure.
Qed.

Lemma visitEachNode_not_cast_failure ns :
  forall s r s', visitEachNode recur ns s = Some (r, s') -> notCastFailure r.
Proof.
  induction ns as [|n ns IH]; intros s r s'; simpl.
  - apply vret_not_cast_failure.
  - apply vbind_not_cast_failure.
    + intros r0 s0. apply recur_safe.
    + intros ee s0 r0 s1. apply vbind_not_cast_failure.
      * intros r1 s2. apply IH.
      * intros rest s2 r1 s3. apply vret_not_cast_failure.
Qed.

Lemma visitEntries_not_cast_failure es :
  forall s r s', visitEntries recur es s = Some (r, s') -> notCastFailure r.
Proof.
  induction es as [|[k e] es IH]; intros s r s'; simpl.
  - apply vret_not_cast_failure.
  - apply vbind_not_cast_failure.
    + intros r0 s0. apply recur_safe.
    + intros ee s0 r0 s1. apply vbind_not_cast_failure.
      * intros r1 s2. apply IH.
      * intros rest s2 r1 s3. destruct (isNil ee); apply vret_not_cast_failure.
Qed.

Lemma visitBoundExprs_not_cast_failure es s r s' :
  visitBoundExprs recur es s = Some (r, s') -> notCastFailure r.
Proof.
  unfold visitBoundExprs. apply vbind_not_cast_failure.
  - intros r0 s0. apply visitEachExpr_not_cast_failure.
  - intros rs s0 r0 s1.
    destruct (Nat.eqb _ _); [|destruct (Nat.eqb _ _)]; apply vret_not_cast_failure.
Qed.

Lemma visitBoundNodes_not_cast_failure ns s r s' :
  visitBoundNodes recur ns s = Some (r, s') -> notCastFailure r.
Proof.
  unfold visitBoundNodes. apply vbind_not_cast_failure.
  - intros r0 s0. apply visitEachNode_not_cast_failure.
  - intros rs s0 r0 s1.
    destruct (Nat.eqb _ _); [|destruct (Nat.eqb _ _)]; apply vret_not_cast_failure.
Qed.

End Safe.

Section WellTyped.

Hypothesis pre_typed : wellTyped pre.
Hypothesis post_typed : wellTyped post.

Lemma visit_pre_not_cast_failure n s r s' :
  visit pre n s = Some (r, s') -> notCastFailure r.
Proof.
  unfold visit. intros H. injection H as H. pose proof (pre_typed n s) as Ht.
  rewrite H in Ht. simpl in Ht. destruct r; [discriminate | discriminate|].
  intros Heq. apply Ht. injection Heq as ->. reflexivity.
Qed.

Lemma visit_post_not_cast_failure n s r s' :
  visit post n s = Some (r, s') -> notCastFailure r.
Proof.
  unfold visit. intros H. injection H as H. pose proof (post_typed n s) as Ht.
  rewrite H in Ht. simpl in Ht. destruct r; [discriminate | discriminate|].
  intros Heq. apply Ht. injection Heq as ->. reflexivity.
Qed.

Lemma visit_post_typed e s x s' :
  visit post (Some (ExprNode e)) s = Some (Ok x, s') -> exprOrNil x = true.
Proof.
  unfold visit. intros H. injection H as H.
  pose proof (post_typed (Some (ExprNode e)) s) as Ht.
  rewrite H in Ht. simpl in Ht. apply Ht. reflexivity.
Qed.

Lemma VisitBoundNode_typed depth :
  forall n s x s',
    exprOrNil n = true ->
    VisitBoundNode pre post depth n s = Some (Ok x, s') -> exprOrNil x = true.
Proof.
  intros n s x s' Hn H.
  destruct depth as [|depth]; [discriminate H|].
  cbn [VisitBoundNode] in H. unfold vbind at 1, visit at 1 in H.
  pose proof (pre_typed n s) as Hpre.
  destruct (pre n s) as [[n0|e|p] s1]; try discriminate H.
  simpl in Hpre. specialize (Hpre Hn).
  destruct n0 as [[[h es|h t es|h t c tr fl|h t tg k|t v|h es|h el sc t tf il]
                  |es|es]|];
    try discriminate Hpre;
    unfold visitBoundArithmetic, visitBoundCall, visitBoundConditional,
      visitBoundIndex, visitBoundOutput, vbind, vret, vcrash in H;
    invert_visit H; try discriminate H;
    try (injection H as <- <-; reflexivity);
    eapply visit_post_typed; exact H.
Qed.

Lemma VisitBoundNode_not_cast_failure depth :
  forall n s r s',
    VisitBoundNode pre post depth n s = Some (r, s') -> notCastFailure r.
Proof.
  induction depth as [|depth IH]; intros n s r s'; [discriminate|].
  pose proof (VisitBoundNode_typed depth) as IHt.
  cbn [VisitBoundNode]. apply vbind_not_cast_failure.
  - intros r0 s0. apply visit_pre_not_cast_failure.
  - intros [[[h es|h t es|h t c tr fl|h t tg k|t v|h es|h el sc t tf il]
            |es|es]|] s0 r0 s1.
    + unfold visitBoundArithmetic. apply vbind_not_cast_failure.
      * intros r1 s2. apply (visitBoundExprs_not_cast_failure _ IH IHt).
      * intros rs s2 r1 s3. destruct (Nat.eqb _ _);
          [apply vret_not_cast_failure | apply visit_post_not_cast_failure].
    + unfold visitBoundCall. apply vbind_not_cast_failure.
      * intros r1 s2. apply (visitBoundExprs_not_cast_failure _ IH IHt).
      * intros rs s2 r1 s3. apply visit_post_not_cast_failure.
    + unfold visitBoundConditional. apply vbind_not_cast_failure;
        [intros r1 s2; apply (VisitBoundExpr_not_cast_failure _ IH IHt)|].
      intros c' s2 r1 s3. apply vbind_not_cast_failure;
        [intros r2 s4; apply (VisitBoundExpr_not_cast_failure _ IH IHt)|].
      intros t' s4 r2 s5. apply vbind_not_cast_failure;
        [intros r3 s6; apply (VisitBoundExpr_not_cast_failure _ IH IHt)|].
      intros f' s6 r3 s7. apply visit_post_not_cast_failure.
    + unfold visitBoundIndex. apply vbind_not_cast_failure;
        [intros r1 s2; apply (VisitBoundExpr_not_cast_failure _ IH IHt)|].
      intros c' s2 r1 s3. apply vbind_not_cast_failure;
        [intros r2 s4; apply (VisitBoundExpr_not_cast_failure _ IH IHt)|].
      intros t' s4 r2 s5. apply visit_post_not_cast_failure.
    + apply visit_post_not_cast_failure.
    + unfold visitBoundOutput. apply vbind_not_cast_failure.
      * intros r1 s2. apply (visitBoundExprs_not_cast_failure _ IH IHt).
      * intros rs s2 r1 s3. destruct (Nat.eqb _ _);
          [apply vret_not_cast_failure | apply visit_post_not_cast_failure].
    + apply visit_post_not_cast_failure.
    + unfold visitBoundListProperty. apply vbind_not_cast_failure.
      * intros r1 s2. apply (visitBoundNodes_not_cast_failure _ IH).
      * intros rs s2 r1 s3. destruct (Nat.eqb _ _);
          [apply vret_not_cast_failure | apply visit_post_not_cast_failure].
    + unfold visitBoundMapProperty. apply vbind_not_cast_failure.
      * intros r1 s2. apply (visitEntries_not_cast_failure _ IH).
      * intros rs s2 r1 s3. apply visit_post_not_cast_failure.
    + unfold vcrash. intros H. injection H as <- <-. discriminate.
Qed.

End WellTyped.

(** X20. The type assertion of [VisitBoundExpr] cannot fail when the
    visitors keep expressions: if pre and post answer an expression node or
    nil whenever they are given an expression node or nil, no traversal,
    from a node or from an expression, of whatever tree and depth, panics on
    the assertion. *)
Theorem VisitBoundExpr_cast_safe :
  wellTyped pre -> wellTyped post ->
  forall depth,
    (forall n s r s',
        VisitBoundNode pre post depth n s = Some (r, s') ->
        r <> Panic castFailure)
    /\ (forall e s r s',
          VisitBoundExpr (VisitBoundNode pre post depth) e s = Some (r, s') ->
          r <> Panic castFailure).
Proof.
  intros Hpre Hpost depth. split.
  - apply (VisitBoundNode_not_cast_failure Hpre Hpost).
  - intros e s r s'.
    apply (VisitBoundExpr_not_cast_failure _
             (VisitBoundNode_not_cast_failure Hpre Hpost depth)
             (VisitBoundNode_typed Hpre Hpost depth)).
Qed.

End VisitorMore.

(** *** The identity traversal *)

Section IdentityTraversal.

Variable St : Type.

Lemma countNils_all_some {A : Type} (ns : list (option A)) :
  Forall (fun o => isNil o = false) ns -> countNils ns = 0%nat.
Proof.
  unfold countNils. induction 1 as [|o ns Ho Hns IH]; simpl; [reflexivity|].
  rewrite Ho. exact IH.
Qed.

Lemma solid_children {A : Type} (solid : A -> bool) (height : A -> nat)
    (l : list A) (d : nat) :
  forallb solid l = true ->
  (S (list_max (map height l)) <= S d)%nat ->
  Forall (fun a => solid a = true /\ (height a <= d)%nat) l.
Proof.
  intros Hs Hh. apply children_below in Hh.
  rewrite forallb_forall in Hs. rewrite List.Forall_forall in Hh |- *.
  intros a Ha. split; [apply Hs, Ha | apply Hh, Ha].
Qed.

Section Step.

Variable recur : option BoundNode -> V St (option BoundNode).
Variable d : nat.
Hypothesis Hrecur :
  forall n, nodeSolidOpt n = true -> (nodeHeightOpt n <= d)%nat ->
            forall s, recur n s = Some (Ok n, s).

Lemma VisitBoundExpr_identity e :
  exprSolidOpt e = true -> (exprHeightOpt e <= d)%nat ->
  forall s, VisitBoundExpr recur e s = Some (Ok e, s).
Proof.
  intros Hs Hh s. destruct e as [e|]; [|discriminate Hs].
  unfold VisitBoundExpr, vbind. cbn [asNode].
  rewrite (Hrecur (Some (ExprNode e)) Hs Hh). reflexivity.
Qed.

Lemma visitEachExpr_identity es :
  Forall (fun e => exprSolidOpt e = true /\ (exprHeightOpt e <= d)%nat) es ->
  forall s, visitEachExpr recur es s = Some (Ok es, s).
Proof.
  induction 1 as [|e es [Hs Hh] Hes IH]; intros s; simpl; [reflexivity|].
  unfold vbind at 1. rewrite (VisitBoundExpr_identity e Hs Hh).
  unfold vbind. rewrite IH. reflexivity.
Qed.

Lemma visitEachNode_identity ns :
  Forall (fun n => nodeSolidOpt n = true /\ (nodeHeightOpt n <= d)%nat) ns ->
  forall s, visitEachNode recur ns s = Some (Ok ns, s).
Proof.
  induction 1 as [|n ns [Hs Hh] Hns IH]; intros s; simpl; [reflexivity|].
  unfold vbind at 1. rewrite (Hrecur n Hs Hh).
  unfold vbind. rewrite IH. reflexivity.
Qed.

Lemma visitEntries_identity (es : list (string * option BoundNode)) :
  Forall (fun entry => nodeSolidOpt (snd entry) = true
                       /\ (nodeHeightOpt (snd entry) <= d)%nat) es ->
  forall s, visitEntries recur es s = Some (Ok es, s).
Proof.
  induction 1 as [|[k e] es [Hs Hh] Hes IH]; intros s; simpl; [reflexivity|].
  simpl in Hs, Hh.
  unfold vbind at 1. rewrite (Hrecur e Hs Hh).
  unfold vbind. rewrite IH.
  destruct e; [reflexivity | discriminate Hs].
Qed.

Lemma visitBoundExprs_identity es :
  Forall (fun e => exprSolidOpt e = true /\ (exprHeightOpt e <= d)%nat) es ->
  forall s, visitBoundExprs recur es s = Some (Ok es, s).
Proof.
  intros Hes s. unfold visitBoundExprs, vbind.
  rewrite (visitEachExpr_identity es Hes).
  rewrite countNils_all_some; [reflexivity|].
  eapply List.Forall_impl; [|exact Hes].
  intros [e|] [Hs _]; [reflexivity | discriminate Hs].
Qed.

Lemma visitBoundNodes_identity ns :
  Forall (fun n => nodeSolidOpt n = true /\ (nodeHeightOpt n <= d)%nat) ns ->
  forall s, visitBoundNodes recur ns s = Some (Ok ns, s).
Proof.
  intros Hns s. unfold visitBoundNodes, vbind.
  rewrite (visitEachNode_identity ns Hns).
  rewrite countNils_all_some; [reflexivity|].
  eapply List.Forall_impl; [|exact Hns].
  intros [n|] [Hs _]; [reflexivity | discriminate Hs].
Qed.

End Step.

Lemma nonEmpty_length {A : Type} (l : list A) :
  nonEmpty l = true -> Nat.eqb (length l) 0 = false.
Proof. destruct l; [discriminate | reflexivity]. Qed.

(** X21. The traversal with [IdentityVisitor] for pre and for post returns
    the tree it is given and leaves the state as it was, for every tree that
    has no nil slot and no Arithmetic, Output or ListProperty without child,
    once the depth allowed reaches the height of the tree. *)
Theorem VisitBoundNode_identity_on_solid :
  forall depth n,
    nodeSolid n = true ->
    (nodeHeight n <= depth)%nat ->
    forall s : St,
      VisitBoundNode IdentityVisitor IdentityVisitor depth (Some n) s
      = Some (Ok (Some n), s).
Proof.
  intros depth.
  assert (Hopt : forall n, nodeSolidOpt n = true -> (nodeHeightOpt n <= depth)%nat ->
                 forall s : St,
                   VisitBoundNode IdentityVisitor IdentityVisitor depth n s
                   = Some (Ok n, s)).
  { induction depth as [|depth IH]; intros [n|] Hs Hh s; try discriminate Hs.
    - simpl in Hh. pose proof (nodeHeight_pos n). lia.
    - cbn [nodeSolidOpt nodeHeightOpt] in Hs, Hh.
      cbn [VisitBoundNode]. unfold vbind at 1, visit at 1, IdentityVisitor at 1.
      destruct n as [[h es|h t es|h t c tr fl|h t tg k|t v|h es|h el sc t tf il]
                    |es|es];
        cbn [nodeSolid exprSolid] in Hs; cbn [nodeHeight exprHeight] in Hh.
      + apply andb_prop in Hs. destruct Hs as [Hne Hs].
        unfold visitBoundArithmetic, vbind.
        rewrite (visitBoundExprs_identity _ depth IH es
                   (solid_children exprSolidOpt exprHeightOpt es depth Hs Hh)).
        rewrite (nonEmpty_length _ Hne). reflexivity.
      + unfold visitBoundCall, vbind.
        rewrite (visitBoundExprs_identity _ depth IH es
                   (solid_children exprSolidOpt exprHeightOpt es depth Hs Hh)).
        reflexivity.
      + apply andb_prop in Hs. destruct Hs as [Hs Hfl].
        apply andb_prop in Hs. destruct Hs as [Hc Htr].
        unfold visitBoundConditional, vbind.
        rewrite (VisitBoundExpr_identity _ depth IH c Hc ltac:(unfold exprHeightOpt; lia)).
        rewrite (VisitBoundExpr_identity _ depth IH tr Htr ltac:(unfold exprHeightOpt; lia)).
        rewrite (VisitBoundExpr_identity _ depth IH fl Hfl ltac:(unfold exprHeightOpt; lia)).
        reflexivity.
      + apply andb_prop in Hs. destruct Hs as [Htg Hk].
        unfold visitBoundIndex, vbind.
        rewrite (VisitBoundExpr_identity _ depth IH tg Htg ltac:(unfold exprHeightOpt; lia)).
        rewrite (VisitBoundExpr_identity _ depth IH k Hk ltac:(unfold exprHeightOpt; lia)).
        reflexivity.
      + reflexivity.
      + apply andb_prop in Hs. destruct Hs as [Hne Hs].
        unfold visitBoundOutput, vbind.
        rewrite (visitBoundExprs_identity _ depth IH es
                   (solid_children exprSolidOpt exprHeightOpt es depth Hs Hh)).
        rewrite (nonEmpty_length _ Hne). reflexivity.
      + reflexivity.
      + apply andb_prop in Hs. destruct Hs as [Hne Hs].
        unfold visitBoundListProperty, vbind.
        rewrite (visitBoundNodes_identity _ depth IH es
                   (solid_children nodeSolidOpt nodeHeightOpt es depth Hs Hh)).
        rewrite (nonEmpty_length _ Hne). reflexivity.
      + unfold visitBoundMapProperty, vbind.
        rewrite (visitEntries_identity _ depth IH es
                   (solid_children
                      (fun entry : string * option BoundNode =>
                         nodeSolidOpt (snd entry))
                      (fun entry : string * option BoundNode =>
                         nodeHeightOpt (snd entry)) es depth Hs Hh)).
        reflexivity. }
  intros n Hs Hh s. exact (Hopt (Some n) Hs Hh s).
Qed.

End IdentityTraversal.

(** *** The traversal on the example trees, continued *)

Lemma VisitBoundNode_result_from_post_witness :
  exists m s0,
    deleteTwo (Some m) s0
    = (Ok (Some (ExprNode (sum [Some (lit 1); Some (lit 3)]))),
       [Some (ExprNode (sum [Some (lit 1); Some (lit 3)]));
        Some (ExprNode (lit 3)); Some (ExprNode (lit 2));
        Some (ExprNode (lit 1))]).
Proof.
  exact (VisitBoundNode_result_from_post Log IdentityVisitor deleteTwo 2
           (Some (ExprNode (sum MoreExamples.oneTwoThree))) [] _ _ eq_refl).
Defined.

Lemma visit_child_error_aborts_witness :
  VisitBoundNode IdentityVisitor MoreExamples.failOnTwo 2
    (Some (ExprNode (sum MoreExamples.oneTwoThree))) []
  = Some (Err (ErrorsNew "two"), [Some (ExprNode (lit 1))]).
Proof.
  refine (proj1 (visit_child_error_aborts Log IdentityVisitor
                   MoreExamples.failOnTwo 1)
            sumNode [Some (lit 1)] (Some (lit 2)) [Some (lit 3)] _ [] []
            [Some (lit 1)] [Some (ExprNode (lit 1))] (ErrorsNew "two") _
            eq_refl _ eq_refl).
  eapply VisitsTo_cons; [reflexivity|]. apply VisitsTo_nil.
Defined.

Lemma visit_map_property_entries_witness :
  VisitBoundNode IdentityVisitor deleteTwo 2
    (Some (BoundMapProperty MoreExamples.twoEntries)) []
  = Some (Ok (Some (BoundMapProperty [("a", Some (ExprNode (lit 1)))])),
          [Some (BoundMapProperty [("a", Some (ExprNode (lit 1)))]);
           Some (ExprNode (lit 2)); Some (ExprNode (lit 1))]).
Proof.
  refine (proj1 (visit_map_property_entries Log IdentityVisitor deleteTwo 1
                   (Some (BoundMapProperty MoreExamples.twoEntries)) []
                   MoreExamples.twoEntries []
                   [Some (ExprNode (lit 1)); None]
                   [Some (ExprNode (lit 2)); Some (ExprNode (lit 1))]
                   eq_refl _)).
  eapply VisitsTo_cons; [reflexivity|].
  eapply VisitsTo_cons; [reflexivity|].
  apply VisitsTo_nil.
Defined.

Lemma visit_fixed_arity_keeps_node_witness :
  VisitBoundNode IdentityVisitor deleteTwo 2
    (Some (ExprNode (MoreExamples.choice (Some (lit 2))))) []
  = Some (Ok (Some (ExprNode (MoreExamples.choice None))),
          [Some (ExprNode (MoreExamples.choice None));
           Some (ExprNode (lit 3)); Some (ExprNode (lit 1));
           Some (ExprNode (lit 2))]).
Proof.
  exact (proj1 (visit_fixed_arity_keeps_node Log IdentityVisitor deleteTwo 1)
           MoreExamples.choiceNode TypeNumber
           (Some (lit 2)) (Some (lit 1)) (Some (lit 3))
           (Some (ExprNode (MoreExamples.choice (Some (lit 2))))) [] []
           None [Some (ExprNode (lit 2))]
           (Some (lit 1)) [Some (ExprNode (lit 1)); Some (ExprNode (lit 2))]
           (Some (lit 3))
           [Some (ExprNode (lit 3)); Some (ExprNode (lit 1)); Some (ExprNode (lit 2))]
           eq_refl eq_refl eq_refl eq_refl).
Defined.

Lemma visit_nil_slot_panics_witness :
  VisitBoundNode IdentityVisitor deleteTwo 2
    (Some (ExprNode (MoreExamples.choice None))) []
  = Some (Panic (ContractFailure "unexpected node type in visitBoundExpr: %T"), []).
Proof.
  exact (proj1 (visit_nil_slot_panics Log IdentityVisitor deleteTwo 0 [] [] []
                  eq_refl)
           MoreExamples.choiceNode TypeNumber (Some (lit 1)) (Some (lit 3))
           eq_refl).
Defined.

Lemma VisitBoundExpr_cast_safe_witness :
  Ok (Some (sum [Some (lit 1); Some (lit 3)])) <> Panic castFailure.
Proof.
  assert (Hpre : wellTyped (IdentityVisitor (St := Log))).
  { intros n s. simpl. intros H. exact H. }
  assert (Hpost : wellTyped deleteTwo).
  { intros n s. unfold deleteTwo.
    destruct n as [[[h es|h t es|h t c tr fl|h t tg k|t [b|[|i|i]|i|str|]
                    |h es|h el sc t tf il]|es|es]|];
      simpl; try (intros H; exact H); try reflexivity.
    destruct i as [i|i|]; simpl; try (intros H; exact H); try reflexivity.
    destruct i; simpl; try (intros H; exact H); reflexivity. }
  exact (proj2 (VisitBoundExpr_cast_safe Log IdentityVisitor deleteTwo
                  Hpre Hpost 2)
           (Some (sum MoreExamples.oneTwoThree)) [] _ _ eq_refl).
Defined.

Lemma VisitBoundNode_identity_on_solid_witness :
  VisitBoundNode IdentityVisitor IdentityVisitor 2
    (Some (ExprNode (sum MoreExamples.oneTwoThree))) tt
  = Some (Ok (Some (ExprNode (sum MoreExamples.oneTwoThree))), tt).
Proof.
  apply (VisitBoundNode_identity_on_solid unit 2
           (ExprNode (sum MoreExamples.oneTwoThree))).
  - reflexivity.
  - simpl. lia.
Defined.

Lemma VisitBoundNode_returns_witness :
  exists r,
    VisitBoundNode IdentityVisitor deleteLiterals 2
      (Some (ExprNode (sum MoreExamples.oneTwoThree))) []
    = Some r.
Proof.
  apply (VisitBoundNode_returns Log IdentityVisitor deleteLiterals
           (fun n s => ex_intro _ s eq_refl) 2
           (Some (ExprNode (sum MoreExamples.oneTwoThree)))).
  simpl. lia.
Defined.

(** * Properties of the generator of http resources *)

Lemma string_append_assoc (a b c : string) : ((a ++ b) ++ c = a ++ (b ++ c))%string.
Proof.
  induction a as [|x a IH]; [reflexivity|].
  change (String x ((a ++ b) ++ c) = String x (a ++ (b ++ c)))%string.
  f_equal. exact IH.
Qed.

Section GeneratorFacts.

Variable Gs : Type.
Variable computeProperty :
  option BoundNode -> bool -> string -> Gs -> res string * Gs.
Variable resName : string -> string -> string.

Lemma callComputeProperty_stdout prop indent count g :
  gen_stdout (snd (callComputeProperty computeProperty prop indent count g))
  = gen_stdout g.
Proof.
  unfold callComputeProperty.
  destruct (computeProperty prop indent count (gen_inner g)); reflexivity.
Qed.

Lemma gbind_stdout {A B : Type} (m : Gen Gs A) (k : A -> Gen Gs B) g :
  (gen_stdout (snd (m g)) = gen_stdout g) ->
  (forall a g0, gen_stdout (snd (k a g0)) = gen_stdout g0) ->
  gen_stdout (snd (gbind m k g)) = gen_stdout g.
Proof.
  intros Hm Hk. unfold gbind.
  destruct (m g) as [[a|e|p] g1]; simpl in *; [rewrite Hk|..]; exact Hm.
Qed.

Lemma computeHTTPInputs_stdout name elements indent count g :
  gen_stdout (snd (computeHTTPInputs computeProperty name elements indent count g))
  = gen_stdout g.
Proof.
  unfold computeHTTPInputs.
  destruct (assoc_lookup "url" elements) as [urlProperty|]; [|reflexivity].
  apply gbind_stdout; [apply callComputeProperty_stdout|].
  intros url g0.
  destruct (assoc_lookup "request_headers" elements) as [hdr|]; [|reflexivity].
  apply gbind_stdout; [apply callComputeProperty_stdout|].
  intros hdrs g1. reflexivity.
Qed.

(** X23. [generateHTTP] writes to the standard output only when it
    succeeds: when it returns an error or panics, whatever the reason, the
    output is as it was; when it succeeds, what it has added begins with the
    declaration of the constant named after the resource. *)
Theorem generateHTTP_writes_only_on_success :
  forall providerName typ name elements count g r g',
    generateHTTP computeProperty resName providerName typ name elements count g
    = (r, g') ->
    (r <> Ok tt -> gen_stdout g' = gen_stdout g)
    /\ (r = Ok tt ->
        exists rest,
          gen_stdout g'
          = (gen_stdout g ++ ("const " ++ resName typ name) ++ rest)%string).
Proof.
  intros providerName typ name elements count g r g' H.
  unfold generateHTTP in H.
  destruct (negb (String.eqb providerName "http")).
  { unfold gcrash in H. injection H as <- <-.
    split; [reflexivity | discriminate]. }
  destruct count as [c|].
  - unfold gbind at 1 in H.
    pose proof (callComputeProperty_stdout (Some c) false "" g) as Hc.
    destruct (callComputeProperty computeProperty (Some c) false "" g)
      as [[cnt|e|p] g1]; simpl in Hc;
      try (injection H as <- <-; split; [intros _; exact Hc | discriminate]).
    unfold gbind at 1 in H.
    pose proof (computeHTTPInputs_stdout name elements true "i" g1) as Hi.
    destruct (computeHTTPInputs computeProperty name elements true "i" g1)
      as [[inputs|e|p] g2]; simpl in Hi;
      try (injection H as <- <-; split;
           [intros _; rewrite Hi; exact Hc | discriminate]).
    unfold gbind, printf in H. simpl in H. injection H as <- <-.
    split; [intros Hne; exfalso; apply Hne; reflexivity|].
    intros _. simpl. rewrite Hi, Hc.
    eexists. rewrite !string_append_assoc. reflexivity.
  - unfold gbind at 1 in H.
    pose proof (computeHTTPInputs_stdout name elements false "" g) as Hi.
    destruct (computeHTTPInputs computeProperty name elements false "" g)
      as [[inputs|e|p] g1]; simpl in Hi;
      try (injection H as <- <-; split; [intros _; exact Hi | discriminate]).
    unfold printf in H. injection H as <- <-.
    split; [intros Hne; exfalso; apply Hne; reflexivity|].
    intros _. simpl. rewrite Hi.
    eexists. rewrite !string_append_assoc. reflexivity.
Qed.

(** X24. The inputs of an http resource that has request headers: the url
    is computed with the indentation asked for and the headers, after it,
    always with indentation on; the text returned is a block of three lines
    between braces, and where each line should be indented it holds what
    [fmt] writes for the verb [%s] and a bool.  Nothing is written to the
    standard output. *)
Theorem computeHTTPInputs_with_headers :
  forall name elements indent count g urlProperty headersProperty
         url inner1 headers inner2,
    assoc_lookup "url" elements = Some urlProperty ->
    assoc_lookup "request_headers" elements = Some headersProperty ->
    computeProperty urlProperty indent count (gen_inner g) = (Ok url, inner1) ->
    computeProperty headersProperty true count inner1 = (Ok headers, inner2) ->
    computeHTTPInputs computeProperty name elements indent count g
    = (Ok ("{" ++ nl
           ++ fmt_s_bool indent ++ "    url: " ++ url ++ "," ++ nl
           ++ fmt_s_bool indent ++ "    headers: " ++ headers ++ "," ++ nl
           ++ fmt_s_bool indent ++ "}")%string,
       {| gen_inner := inner2; gen_stdout := gen_stdout g |}).
Proof.
  intros name elements indent count g urlProperty headersProperty
         url inner1 headers inner2 Hurl Hhdr Hcu Hch.
  unfold computeHTTPInputs. rewrite Hurl.
  unfold gbind at 1, callComputeProperty at 1. rewrite Hcu.
  rewrite Hhdr. unfold gbind, callComputeProperty. cbn [gen_inner gen_stdout].
  rewrite Hch. reflexivity.
Qed.

(** X25. An http resource without url: the inputs are not computed, the
    error names the resource, and neither [computeProperty] is called nor
    anything written; [generateHTTP] then fails with the same error when the
    resource has no count. *)
Theorem computeHTTPInputs_missing_url :
  forall typ name elements indent count g,
    assoc_lookup "url" elements = None ->
    let failure := Errorf missing_url_message [ArgString name] in
    computeHTTPInputs computeProperty name elements indent count g
    = (Err failure, g)
    /\ generateHTTP computeProperty resName "http" typ name elements None g
       = (Err failure, g).
Proof.
  intros typ name elements indent count g Hurl failure. subst failure.
  split.
  - unfold computeHTTPInputs. rewrite Hurl. reflexivity.
  - unfold generateHTTP. cbn [String.eqb Ascii.eqb Bool.eqb negb].
    unfold gbind, computeHTTPInputs. rewrite Hurl. reflexivity.
Qed.

End GeneratorFacts.

(** *** The generator on an example resource *)

Lemma generateHTTP_writes_only_on_success_witness :
  exists rest,
    gen_stdout
      (snd (generateHTTP MoreExamples.countingComputeProperty
              MoreExamples.plainResName "http" "http" "page"
              MoreExamples.httpProperties None
              {| gen_inner := 0%nat; gen_stdout := "" |}))
    = ("" ++ ("const " ++ "page") ++ rest)%string.
Proof.
  exact (proj2 (generateHTTP_writes_only_on_success nat
                  MoreExamples.countingComputeProperty MoreExamples.plainResName
                  "http" "http" "page" MoreExamples.httpProperties None
                  {| gen_inner := 0%nat; gen_stdout := "" |} _ _ eq_refl)
           eq_refl).
Defined.

Lemma computeHTTPInputs_with_headers_witness :
  computeHTTPInputs MoreExamples.countingComputeProperty "page"
    MoreExamples.httpProperties false ""
    {| gen_inner := 0%nat; gen_stdout := "" |}
  = (Ok ("{" ++ nl
         ++ "%!s(bool=false)    url: p," ++ nl
         ++ "%!s(bool=false)    headers: p," ++ nl
         ++ "%!s(bool=false)}")%string,
     {| gen_inner := 2%nat; gen_stdout := "" |}).
Proof.
  exact (computeHTTPInputs_with_headers nat MoreExamples.countingComputeProperty
           "page" MoreExamples.httpProperties false ""
           {| gen_inner := 0%nat; gen_stdout := "" |}
           (Some (ExprNode (Example.boundStr "u"))) (Some (BoundMapProperty []))
           "p" 1%nat "p" 2%nat eq_refl eq_refl eq_refl eq_refl).
Defined.

Lemma computeHTTPInputs_missing_url_witness :
  generateHTTP MoreExamples.countingComputeProperty MoreExamples.plainResName
    "http" "http" "page" [] None {| gen_inner := 0%nat; gen_stdout := "" |}
  = (Err (Errorf missing_url_message [ArgString "page"]),
     {| gen_inner := 0%nat; gen_stdout := "" |}).
Proof.
  exact (proj2 (computeHTTPInputs_missing_url nat
                  MoreExamples.countingComputeProperty MoreExamples.plainResName
                  "http" "page" [] false ""
                  {| gen_inner := 0%nat; gen_stdout := "" |} eq_refl)).
Defined.
